(** * objaverse_json: manifest store, mesh normaliser and batch loop

    A shallow embedding of [src/utils/objaverse_json.py].

    - Python values read from and written to the manifest are the JSON
      values of the [json] module ([json]).
    - Coordinates and scales are exact rationals ([Q]); every finite
      binary64 value is one, and rounding is not modelled.
    - A Python exception is a [Raise] result; statements run in a state
      and exception monad [M] whose state survives a raise (files that
      were written stay written).
    - [trimesh] and the file system are the environment: what
      [trimesh.load] returns for a path, the centroid of a mesh and
      whether an export succeeds are read from a [World]. *)

From Stdlib Require Import ZArith QArith Qminmax Qround String Ascii List Lia Lqa.
From stdpp Require Import base option list gmap sets strings.
Import ListNotations.

Set Warnings "-register-all".

Local Open Scope string_scope.
Local Open Scope list_scope.
Local Open Scope Z_scope.

(** ** Exceptions and results *)

Inductive exn : Set :=
| JSONDecodeError        (* json.load: the text is not a JSON document *)
| TypeError              (* not iterable, not subscriptable, unhashable *)
| KeyError               (* dict key missing *)
| IndexError             (* list index out of range *)
| AttributeError         (* e.g. [append] on something that is no list *)
| FileNotFoundError      (* os.makedirs of the empty path *)
| MeshError              (* raised inside trimesh: bounding box of an empty mesh *)
| ExportError            (* raised by [Trimesh.export] *)
| LoopBound.             (* the bound of a modelled [while]; shown unreachable *)

Inductive result (A : Type) : Type :=
| Ok (a : A)
| Raise (e : exn).
Arguments Ok {A} a.
Arguments Raise {A} e.

Definition rbind {A B} (r : result A) (f : A -> result B) : result B :=
  match r with
  | Ok a => f a
  | Raise e => Raise e
  end.

Fixpoint rmap_list {A B} (f : A -> result B) (l : list A) : result (list B) :=
  match l with
  | [] => Ok []
  | x :: l' => rbind (f x) (fun y => rbind (rmap_list f l') (fun ys => Ok (y :: ys)))
  end.

(** ** JSON values, as the [json] module maps them to Python objects *)

Inductive json : Type :=
| JNull                                  (* None *)
| JBool (b : bool)
| JInt (z : Z)                           (* int *)
| JFloat (q : Q)                         (* finite float *)
| JNaN
| JInf (negative : bool)
| JStr (s : string)
| JArr (items : list json)               (* list *)
| JObj (members : list (string * json)). (* dict, insertion ordered *)

(** [dict.__setitem__]: an existing key keeps its place and takes the new
    value, a new key goes last. *)
Fixpoint dict_set (k : string) (v : json) (d : list (string * json))
  : list (string * json) :=
  match d with
  | [] => [(k, v)]
  | (k', v') :: d' =>
      if String.eqb k k' then (k, v) :: d' else (k', v') :: dict_set k v d'
  end.

Fixpoint dict_get (k : string) (d : list (string * json)) : option json :=
  match d with
  | [] => None
  | (k', v) :: d' => if String.eqb k k' then Some v else dict_get k d'
  end.

(** [for item in v]: a list yields its items, a dict its keys, a string
    its characters; nothing else is iterable. *)
Definition py_iter (v : json) : result (list json) :=
  match v with
  | JArr items => Ok items
  | JObj members => Ok (map (fun kv => JStr (fst kv)) members)
  | JStr s => Ok (map (fun c => JStr (String c EmptyString)) (list_ascii_of_string s))
  | _ => Raise TypeError
  end.

(** [item[key]] for a string key. *)
Definition py_getitem (item : json) (key : string) : result json :=
  match item with
  | JObj members =>
      match dict_get key members with
      | Some v => Ok v
      | None => Raise KeyError
      end
  | _ => Raise TypeError
  end.

(** Adding to a set hashes the element: lists and dicts are unhashable. *)
Definition py_hashable (v : json) : result json :=
  match v with
  | JArr _ | JObj _ => Raise TypeError
  | _ => Ok v
  end.

(** [{item[key] for item in data}].  The set is kept as the list of its
    elements; only membership is ever asked of it. *)
Definition set_of_key (key : string) (data : json) : result (list json) :=
  rbind (py_iter data) (fun items =>
  rmap_list (fun item => rbind (py_getitem item key) py_hashable) items).

(** [n == v] for an int [n]: ints and floats compare by value, [True] is 1
    and [False] is 0, anything else differs from every int. *)
Definition py_eq_int (n : Z) (v : json) : bool :=
  match v with
  | JInt z => Z.eqb n z
  | JFloat q => Qeq_bool (inject_Z n) q
  | JBool b => Z.eqb n (if b then 1 else 0)
  | _ => false
  end.

(** [s == v] for a str [s]. *)
Definition py_eq_str (s : string) (v : json) : bool :=
  match v with
  | JStr s' => String.eqb s s'
  | _ => false
  end.

Definition int_in (n : Z) (set : list json) : bool := existsb (py_eq_int n) set.
Definition str_in (s : string) (set : list json) : bool := existsb (py_eq_str s) set.

(** ** Manifest store *)

(** [while new_id in used_ids: new_id += 1], run for at most [fuel] tests. *)
Fixpoint while_in_used (fuel : nat) (used_ids : list json) (new_id : Z) : option Z :=
  match fuel with
  | O => None
  | S fuel' =>
      if int_in new_id used_ids
      then while_in_used fuel' used_ids (new_id + 1)
      else Some new_id
  end.

Definition find_next_available_id (existing_data : json) : result Z :=
  rbind (set_of_key "obj_id" existing_data) (fun used_ids =>
  match while_in_used (S (length used_ids)) used_ids 0 with
  | Some new_id => Ok new_id
  | None => Raise LoopBound
  end).

(** The manifest record of the data model, and the dict that
    [update_json] appends for it. *)
Record ManifestRecord : Type := {
  obj_id : Z;
  objaverse_id : string;
  github_id : string;
  norm_scale : Q
}.

Definition record_json (r : ManifestRecord) : json :=
  JObj [("obj_id", JInt (obj_id r));
        ("objaverse_id", JStr (objaverse_id r));
        ("github_id", JStr (github_id r));
        ("norm_scale", JFloat (norm_scale r))].

Definition manifest_json (records : list ManifestRecord) : json :=
  JArr (map record_json records).

(** ** [json.load]: the decoder of Python's [json] module

    Text is a string of bytes (UTF-8); a [\uXXXX] escape is decoded to
    the UTF-8 bytes of its code point.  The decoder accepts what
    [json.loads] accepts ([NaN], [Infinity] and [-Infinity] included) and
    raises [JSONDecodeError] on everything else. *)

Definition is_ws (c : ascii) : bool :=
  (Ascii.eqb c " " || Ascii.eqb c "009" || Ascii.eqb c "010" || Ascii.eqb c "013")%bool.

Fixpoint skip_ws (s : string) : string :=
  match s with
  | String c rest => if is_ws c then skip_ws rest else s
  | EmptyString => s
  end.

Definition digit_val (c : ascii) : option Z :=
  let n := Z.of_N (N_of_ascii c) in
  if (48 <=? n) && (n <=? 57) then Some (n - 48) else None.

Definition hex_val (c : ascii) : option Z :=
  let n := Z.of_N (N_of_ascii c) in
  if (48 <=? n) && (n <=? 57) then Some (n - 48)
  else if (97 <=? n) && (n <=? 102) then Some (n - 87)
  else if (65 <=? n) && (n <=? 70) then Some (n - 55)
  else None.

Fixpoint take_digits (s : string) : list Z * string :=
  match s with
  | String c rest =>
      match digit_val c with
      | Some d => let '(ds, r) := take_digits rest in (d :: ds, r)
      | None => ([], s)
      end
  | EmptyString => ([], s)
  end.

Definition digits_value (ds : list Z) : Z :=
  fold_left (fun acc d => 10 * acc + d) ds 0.

Fixpoint strip_prefix (p s : string) : option string :=
  match p, s with
  | EmptyString, _ => Some s
  | String a p', String b s' => if Ascii.eqb a b then strip_prefix p' s' else None
  | String _ _, EmptyString => None
  end.

(** The value [sign * mantissa * 10 ^ scale] of a number with a fraction
    or an exponent. *)
Definition decimal (negative : bool) (mantissa scale : Z) : Q :=
  let m := if negative then - mantissa else mantissa in
  if 0 <=? scale then inject_Z (m * 10 ^ scale)
  else Qmake m (Z.to_pos (10 ^ (- scale))).

(** [eat c s]: the rest of [s] after its first character, if that is [c]. *)
Definition eat (c : ascii) (s : string) : option string :=
  match s with
  | String c' r => if Ascii.eqb c' c then Some r else None
  | EmptyString => None
  end.

(** [NUMBER_RE] matched at the start of a text: an optional minus sign,
    then 0 or a digit string without leading zero ([match_int]);
    optionally a dot and at least one digit ([match_frac]); optionally e
    or E, an optional sign and at least one digit ([match_exp]).  An
    optional part that does not match in full is left unread. *)
Definition opt_minus (s : string) : bool * string :=
  match eat "-" s with
  | Some r => (true, r)
  | None => (false, s)
  end.

Definition match_int (s : string) : option (list Z * string) :=
  match s with
  | String c r1 =>
      match digit_val c with
      | None => None
      | Some d =>
          if d =? 0 then Some ([0], r1)
          else let '(ds, r) := take_digits r1 in Some (d :: ds, r)
      end
  | EmptyString => None
  end.

Definition match_frac (s : string) : option (list Z) * string :=
  match eat "." s with
  | Some r2 =>
      match take_digits r2 with
      | ([], _) => (None, s)
      | (ds, r) => (Some ds, r)
      end
  | None => (None, s)
  end.

Definition match_exp (s : string) : option Z * string :=
  match (match eat "e" s with Some r => Some r | None => eat "E" s end) with
  | Some r3 =>
      let '(eneg, r4) :=
        match eat "-" r3, eat "+" r3 with
        | Some r, _ => (true, r)
        | None, Some r => (false, r)
        | None, None => (false, r3)
        end in
      match take_digits r4 with
      | ([], _) => (None, s)
      | (ds, r) => (Some (if eneg then - digits_value ds else digits_value ds), r)
      end
  | None => (None, s)
  end.

Definition match_number (s : string) : option (json * string) :=
  let '(negative, s1) := opt_minus s in
  match match_int s1 with
  | None => None
  | Some (int_digits, s2) =>
      let '(frac, s3) := match_frac s2 in
      let '(exponent, s4) := match_exp s3 in
      match frac, exponent with
      | None, None =>
          let n := digits_value int_digits in
          Some (JInt (if negative then - n else n), s4)
      | _, _ =>
          let fd := match frac with Some ds => ds | None => [] end in
          let ex := match exponent with Some e => e | None => 0 end in
          Some (JFloat (decimal negative (digits_value (int_digits ++ fd))
                                (ex - Z.of_nat (length fd))), s4)
      end
  end.

Definition byte_of (n : Z) : ascii := ascii_of_N (Z.to_N (n mod 256)).

(** UTF-8 bytes of a code point, last byte first (a lone surrogate gets
    the three-byte form). *)
Definition utf8_rev (n : Z) : list ascii :=
  if n <? 128 then [byte_of n]
  else if n <? 2048 then [byte_of (128 + n mod 64); byte_of (192 + n / 64)]
  else if n <? 65536 then
    [byte_of (128 + n mod 64); byte_of (128 + (n / 64) mod 64); byte_of (224 + n / 4096)]
  else
    [byte_of (128 + n mod 64); byte_of (128 + (n / 64) mod 64);
     byte_of (128 + (n / 4096) mod 64); byte_of (240 + n / 262144)].

(** [_decode_uXXXX]: four hexadecimal digits. *)
Definition decode_uXXXX (s : string) : result (Z * string) :=
  match s with
  | String a (String b (String c (String d rest))) =>
      match hex_val a, hex_val b, hex_val c, hex_val d with
      | Some x, Some y, Some z, Some w => Ok (((x * 16 + y) * 16 + z) * 16 + w, rest)
      | _, _, _, _ => Raise JSONDecodeError
      end
  | _ => Raise JSONDecodeError
  end.

Definition simple_escape (c : ascii) : option ascii :=
  if Ascii.eqb c "034" then Some "034"%char
  else if Ascii.eqb c "\" then Some "\"%char
  else if Ascii.eqb c "/" then Some "/"%char
  else if Ascii.eqb c "b" then Some "008"%char
  else if Ascii.eqb c "f" then Some "012"%char
  else if Ascii.eqb c "n" then Some "010"%char
  else if Ascii.eqb c "r" then Some "013"%char
  else if Ascii.eqb c "t" then Some "009"%char
  else None.

(** [py_scanstring] in strict mode, from just after the opening quote;
    [acc] holds the decoded bytes so far, last first. *)
Fixpoint scanstring (fuel : nat) (s : string) (acc : list ascii)
  : result (string * string) :=
  match fuel with
  | O => Raise LoopBound
  | S fuel' =>
      match s with
      | EmptyString => Raise JSONDecodeError
      | String c rest =>
          if Ascii.eqb c "034" then Ok (string_of_list_ascii (rev acc), rest)
          else if Ascii.eqb c "\" then
            match rest with
            | EmptyString => Raise JSONDecodeError
            | String e rest' =>
                if Ascii.eqb e "u" then
                  rbind (decode_uXXXX rest') (fun '(uni, r1) =>
                  if (55296 <=? uni) && (uni <=? 56319) then
                    match strip_prefix "\u" r1 with
                    | Some r1' =>
                        rbind (decode_uXXXX r1') (fun '(uni2, r2) =>
                        if (56320 <=? uni2) && (uni2 <=? 57343) then
                          scanstring fuel' r2
                            (utf8_rev (65536 + ((uni - 55296) * 1024 + (uni2 - 56320)))
                             ++ acc)
                        else scanstring fuel' r1 (utf8_rev uni ++ acc))
                    | None => scanstring fuel' r1 (utf8_rev uni ++ acc)
                    end
                  else scanstring fuel' r1 (utf8_rev uni ++ acc))
                else
                  match simple_escape e with
                  | Some d => scanstring fuel' rest' (d :: acc)
                  | None => Raise JSONDecodeError
                  end
            end
          else if (N_of_ascii c <? 32)%N then Raise JSONDecodeError
          else scanstring fuel' rest (c :: acc)
      end
  end.

Definition scan_str (s : string) : result (string * string) :=
  scanstring (S (String.length s)) s [].

(** [scan_once], [JSONArray] and [JSONObject].  [scan_items] starts at an
    array element, [scan_members] just after the opening quote of a key. *)
Fixpoint scan_once (fuel : nat) (s : string) {struct fuel} : result (json * string) :=
  match fuel with
  | O => Raise LoopBound
  | S fuel' =>
      match s with
      | EmptyString => Raise JSONDecodeError
      | String c rest =>
          if Ascii.eqb c "034" then
            rbind (scan_str rest) (fun '(str, r) => Ok (JStr str, r))
          else if Ascii.eqb c "{" then
            match eat "}" (skip_ws rest), eat "034" (skip_ws rest) with
            | Some r, _ => Ok (JObj [], r)
            | None, Some r => scan_members fuel' r []
            | None, None => Raise JSONDecodeError
            end
          else if Ascii.eqb c "[" then
            match eat "]" (skip_ws rest) with
            | Some r => Ok (JArr [], r)
            | None => scan_items fuel' (skip_ws rest) []
            end
          else
            match strip_prefix "null" s, strip_prefix "true" s, strip_prefix "false" s with
            | Some r, _, _ => Ok (JNull, r)
            | _, Some r, _ => Ok (JBool true, r)
            | _, _, Some r => Ok (JBool false, r)
            | None, None, None =>
                match match_number s with
                | Some res => Ok res
                | None =>
                    match strip_prefix "NaN" s, strip_prefix "Infinity" s,
                          strip_prefix "-Infinity" s with
                    | Some r, _, _ => Ok (JNaN, r)
                    | _, Some r, _ => Ok (JInf false, r)
                    | _, _, Some r => Ok (JInf true, r)
                    | None, None, None => Raise JSONDecodeError
                    end
                end
            end
      end
  end
with scan_items (fuel : nat) (s : string) (acc : list json) {struct fuel}
  : result (json * string) :=
  match fuel with
  | O => Raise LoopBound
  | S fuel' =>
      rbind (scan_once fuel' s) (fun '(value, r) =>
      match eat "]" (skip_ws r), eat "," (skip_ws r) with
      | Some r', _ => Ok (JArr (rev (value :: acc)), r')
      | None, Some r' => scan_items fuel' (skip_ws r') (value :: acc)
      | None, None => Raise JSONDecodeError
      end)
  end
with scan_members (fuel : nat) (s : string) (acc : list (string * json)) {struct fuel}
  : result (json * string) :=
  match fuel with
  | O => Raise LoopBound
  | S fuel' =>
      rbind (scan_str s) (fun '(key, r) =>
      match eat ":" (skip_ws r) with
      | Some r1 =>
          rbind (scan_once fuel' (skip_ws r1)) (fun '(value, r2) =>
          match eat "}" (skip_ws r2), eat "," (skip_ws r2) with
          | Some r', _ => Ok (JObj (dict_set key value acc), r')
          | None, Some r' =>
              match eat "034" (skip_ws r') with
              | Some r'' => scan_members fuel' r'' (dict_set key value acc)
              | None => Raise JSONDecodeError
              end
          | None, None => Raise JSONDecodeError
          end)
      | None => Raise JSONDecodeError
      end)
  end.

(** [json.loads]: one value, white space around it, nothing after it. *)
Definition json_loads (text : string) : result json :=
  rbind (scan_once (2 * String.length text + 2) (skip_ws text)) (fun '(value, r) =>
  match skip_ws r with
  | EmptyString => Ok value
  | String _ _ => Raise JSONDecodeError
  end).

(** ** [str.split], [os.path.join] and [os.path.dirname] (POSIX) *)

(** [s.split(sep)]: every separator splits, empty segments are kept. *)
Fixpoint split_on (sep : ascii) (s : string) : list string :=
  match s with
  | EmptyString => [EmptyString]
  | String c rest =>
      if Ascii.eqb c sep then EmptyString :: split_on sep rest
      else
        match split_on sep rest with
        | seg :: segs => String c seg :: segs
        | [] => [String c EmptyString]
        end
  end.

(** [l[-2]]. *)
Definition index_neg2 {A} (l : list A) : result A :=
  match rev l with
  | _ :: x :: _ => Ok x
  | _ => Raise IndexError
  end.

Definition starts_with_sep (s : string) : bool :=
  match s with
  | String c _ => Ascii.eqb c "/"
  | EmptyString => false
  end.

Fixpoint ends_with_sep (s : string) : bool :=
  match s with
  | EmptyString => false
  | String c EmptyString => Ascii.eqb c "/"
  | String _ rest => ends_with_sep rest
  end.

(** One step of [posixpath.join]: an absolute component restarts the
    path, otherwise it is appended with exactly one separator between. *)
Definition join_step (path b : string) : string :=
  if starts_with_sep b then b
  else if (String.eqb path "" || ends_with_sep path)%bool then path +:+ b
  else path +:+ "/" +:+ b.

Definition os_path_join (a : string) (p : list string) : string :=
  fold_left join_step p a.

Fixpoint drop_while {A} (f : A -> bool) (l : list A) : list A :=
  match l with
  | [] => []
  | x :: l' => if f x then drop_while f l' else l
  end.

Definition is_sep (c : ascii) : bool := Ascii.eqb c "/".

(** [posixpath.dirname]: everything up to the last separator, with the
    trailing separators removed unless nothing else is left. *)
Definition os_path_dirname (p : string) : string :=
  let head_rev := drop_while (fun c => negb (is_sep c)) (rev (list_ascii_of_string p)) in
  let head_rev := if forallb is_sep head_rev then head_rev else drop_while is_sep head_rev in
  string_of_list_ascii (rev head_rev).

(** ** Meshes *)

Definition vec3 : Type := Q * Q * Q.

Record Trimesh : Type := {
  vertices : list vec3;
  faces : list (nat * nat * nat)
}.

Definition vx (v : vec3) : Q := fst (fst v).
Definition vy (v : vec3) : Q := snd (fst v).
Definition vz (v : vec3) : Q := snd v.

Fixpoint list_max (x : Q) (xs : list Q) : Q :=
  match xs with
  | [] => x
  | y :: ys => Qmax x (list_max y ys)
  end.

Fixpoint list_min (x : Q) (xs : list Q) : Q :=
  match xs with
  | [] => x
  | y :: ys => Qmin x (list_min y ys)
  end.

(** Peak to peak, the extent along one axis. *)
Definition ptp (x : Q) (xs : list Q) : Q := (list_max x xs - list_min x xs)%Q.

(** [mesh.bounding_box.extents]: the size of the axis-aligned bounding
    box of the vertices.  A mesh without vertices has no bounds and the
    attribute access raises. *)
Definition extents (m : Trimesh) : option vec3 :=
  match vertices m with
  | [] => None
  | v :: vs => Some (ptp (vx v) (map vx vs), ptp (vy v) (map vy vs), ptp (vz v) (map vz vs))
  end.

(** [max(extents)]. *)
Definition max3 (e : vec3) : Q := Qmax (Qmax (vx e) (vy e)) (vz e).

Definition scale_vertex (s : Q) (v : vec3) : vec3 :=
  (vx v * s, vy v * s, vz v * s)%Q.

Definition translate_vertex (t v : vec3) : vec3 :=
  (vx v + vx t, vy v + vy t, vz v + vz t)%Q.

Definition neg_vec (c : vec3) : vec3 := (- vx c, - vy c, - vz c)%Q.

Definition apply_scale (s : Q) (m : Trimesh) : Trimesh :=
  {| vertices := map (scale_vertex s) (vertices m); faces := faces m |}.

Definition apply_translation (t : vec3) (m : Trimesh) : Trimesh :=
  {| vertices := map (translate_vertex t) (vertices m); faces := faces m |}.

(** [trimesh.util.concatenate]: vertex buffers appended, face indices
    shifted by the number of vertices before them. *)
Fixpoint concatenate (meshes : list Trimesh) : Trimesh :=
  match meshes with
  | [] => {| vertices := []; faces := [] |}
  | m :: ms =>
      let r := concatenate ms in
      let k := length (vertices m) in
      {| vertices := vertices m ++ vertices r;
         faces := faces m ++
                  map (fun f => (k + fst (fst f), k + snd (fst f), k + snd f)%nat) (faces r) |}
  end.

(** What [trimesh.load] can return: a scene of named geometries, or a
    single mesh.  [dump] is what [Scene.dump()] gives, the geometries of
    the scene graph in world coordinates. *)
Inductive Geometry : Type :=
| GTrimesh (m : Trimesh)
| GPointCloud (points : list vec3)
| GPath.

Inductive Loaded : Type :=
| Scene (geometry : list (string * Geometry)) (dump : list Trimesh)
| SingleMesh (m : Trimesh).

Definition is_trimesh (g : Geometry) : bool :=
  match g with
  | GTrimesh _ => true
  | _ => false
  end.

(** The environment of a run. *)
Record World : Type := {
  trimesh_load : string -> option Loaded;   (* [None]: [trimesh.load] raised *)
  centroid : Trimesh -> vec3;               (* [mesh.centroid] *)
  export_ok : string -> Trimesh -> bool     (* whether [mesh.export(path, ...)] succeeds *)
}.

(** The mean of the triangle centres: what [Trimesh.centroid] falls back
    to when every triangle has zero area. *)
Definition vertex_at (m : Trimesh) (i : nat) : vec3 := nth i (vertices m) (0, 0, 0)%Q.

Definition triangle_center (m : Trimesh) (f : nat * nat * nat) : vec3 :=
  let a := vertex_at m (fst (fst f)) in
  let b := vertex_at m (snd (fst f)) in
  let c := vertex_at m (snd f) in
  ((vx a + vx b + vx c) / 3, (vy a + vy b + vy c) / 3, (vz a + vz b + vz c) / 3)%Q.

Definition vec_sum (vs : list vec3) : vec3 :=
  fold_right (fun v acc => (vx v + vx acc, vy v + vy acc, vz v + vz acc)%Q) (0, 0, 0)%Q vs.

Definition triangles_center_mean (m : Trimesh) : vec3 :=
  let s := vec_sum (map (triangle_center m) (faces m)) in
  let n := inject_Z (Z.of_nat (length (faces m))) in
  (vx s / n, vy s / n, vz s / n)%Q.

(** ** State, trace and the monad of statements *)

(** What a run did, in order: a directory made, the conversion called
    (with the request it was called for), a line printed, a mesh
    exported, the manifest saved. *)
Inductive event : Type :=
| EvMakedirs (dir : string)
| EvConvert (objaverse_id glb_path obj_path : string)
| EvPrint (msg : string)
| EvExport (obj_path : string) (mesh : Trimesh)
| EvSave (file_path : string) (data : json).

(** A file holds text, or is the document [json.dump] wrote for a value
    (which [json.load] reads back as that value). *)
Inductive file : Type :=
| Text (s : string)
| Dumped (v : json).

(** The manifest files on disk, the directories made so far, and the
    trace. *)
Record state : Type := {
  files : gmap string file;
  dirs : gset string;
  trace : list event
}.

(** A statement: it ends with a value or raises, and leaves a state
    either way. *)
Definition M (A : Type) : Type := state -> result A * state.

Definition ret {A} (a : A) : M A := fun st => (Ok a, st).

Definition bind {A B} (c : M A) (f : A -> M B) : M B :=
  fun st =>
    match c st with
    | (Ok a, st') => f a st'
    | (Raise e, st') => (Raise e, st')
    end.

Definition lift {A} (r : result A) : M A := fun st => (r, st).

Definition emit (e : event) : M unit :=
  fun st => (Ok tt, {| files := files st; dirs := dirs st; trace := trace st ++ [e] |}).

Notation "x <- c1 ;; c2" := (bind c1 (fun x => c2))
  (at level 100, c1 at next level, right associativity).
Notation "c1 ;; c2" := (bind c1 (fun _ => c2))
  (at level 100, right associativity).

Definition print (msg : string) : M unit := emit (EvPrint msg).

(** [os.makedirs(d, exist_ok=True)]; the empty path cannot be made. *)
Definition makedirs (d : string) : M unit :=
  if String.eqb d "" then lift (Raise FileNotFoundError)
  else fun st =>
    (Ok tt, {| files := files st; dirs := {[ d ]} ∪ dirs st;
               trace := trace st ++ [EvMakedirs d] |}).

Definition load_existing_json (file_path : string) : M json :=
  fun st =>
    match files st !! file_path with
    | Some (Text s) => (json_loads s, st)
    | Some (Dumped v) => (Ok v, st)
    | None => (Ok (JArr []), st)
    end.

Definition save_to_json (file_path : string) (data : json) : M unit :=
  let directory := os_path_dirname file_path in
  makedirs directory ;;
  fun st =>
    (Ok tt, {| files := <[file_path := Dumped data]> (files st); dirs := dirs st;
               trace := trace st ++ [EvSave file_path data] |}).

(** [existing_data.append(d)]. *)
Definition py_append (data d : json) : result json :=
  match data with
  | JArr items => Ok (JArr (items ++ [d]))
  | _ => Raise AttributeError
  end.

Section Pipeline.
Context (w : World).

(** Lines 54-61: scale to a unit bounding box when the largest extent
    is positive, then centre on the centroid. *)
Definition normalized (norm_scale : Q) (merged_mesh : Trimesh) : Trimesh :=
  let scaled :=
    if Qlt_le_dec 0 norm_scale then apply_scale (1 / norm_scale) merged_mesh
    else merged_mesh in
  apply_translation (neg_vec (centroid w scaled)) scaled.

Definition export (obj_path : string) (mesh : Trimesh) : M unit :=
  if export_ok w obj_path mesh then emit (EvExport obj_path mesh)
  else lift (Raise ExportError).

(** Lines 54-64, from the merged mesh on. *)
Definition normalize_and_export (merged_mesh : Trimesh) (obj_path : string)
  : M (option Q) :=
  match extents merged_mesh with
  | None => lift (Raise MeshError)
  | Some e =>
      let norm_scale := max3 e in
      export obj_path (normalized norm_scale merged_mesh) ;;
      ret (Some norm_scale)
  end.

Definition convert_glb_to_obj (glb_path obj_path : string) : M (option Q) :=
  match trimesh_load w glb_path with
  | None => ret None
  | Some (Scene geometry dump) =>
      if forallb (fun g => is_trimesh (snd g)) geometry
      then normalize_and_export (concatenate dump) obj_path
      else
        print ("Skipping " +:+ glb_path +:+ " as it is not a valid Trimesh") ;;
        ret None
  | Some (SingleMesh m) => normalize_and_export m obj_path
  end.

Definition new_record (new_id : Z) (objaverse_id github_id : string) (norm_scale : Q)
  : json :=
  JObj [("obj_id", JInt new_id);
        ("objaverse_id", JStr objaverse_id);
        ("github_id", JStr github_id);
        ("norm_scale", JFloat norm_scale)].

Definition obj_path_of (objaverse_base_path github_id objaverse_id : string) : string :=
  os_path_join objaverse_base_path ["objs"; github_id; objaverse_id; "model_scaled.obj"].

(** One iteration of the loop of [update_json] (lines 74-95). *)
Definition loop_body (existing_map : list json) (objaverse_base_path file_path : string)
    (idx : nat) (item : string * string) (existing_data : json) : M json :=
  let '(objaverse_id, path) := item in
  if negb (str_in objaverse_id existing_map) then
    github_id <- lift (index_neg2 (split_on "/" path)) ;;
    let obj_path := obj_path_of objaverse_base_path github_id objaverse_id in
    let obj_path_dir := os_path_dirname obj_path in
    makedirs obj_path_dir ;;
    emit (EvConvert objaverse_id path obj_path) ;;
    norm_scale <- convert_glb_to_obj path obj_path ;;
    match norm_scale with
    | None =>
        print (path +:+ " could not be converted to .obj") ;;
        ret existing_data
    | Some norm_scale =>
        new_id <- lift (find_next_available_id existing_data) ;;
        existing_data <- lift (py_append existing_data
                                 (new_record new_id objaverse_id github_id norm_scale)) ;;
        (if (idx mod 250 =? 0)%nat then save_to_json file_path existing_data
         else ret tt) ;;
        ret existing_data
    end
  else ret existing_data.

(** [for idx, (objaverse_id, path) in enumerate(objaverse_dict.items())],
    from position [idx] on. *)
Fixpoint for_loop (existing_map : list json) (objaverse_base_path file_path : string)
    (idx : nat) (items : list (string * string)) (existing_data : json) : M json :=
  match items with
  | [] => ret existing_data
  | item :: rest =>
      existing_data <- loop_body existing_map objaverse_base_path file_path
                                 idx item existing_data ;;
      for_loop existing_map objaverse_base_path file_path (S idx) rest existing_data
  end.

(** [objaverse_dict] is the dict's items in insertion order. *)
Definition update_json (objaverse_dict : list (string * string))
    (objaverse_base_path file_path : string) : M unit :=
  existing_data <- load_existing_json file_path ;;
  existing_map <- lift (set_of_key "objaverse_id" existing_data) ;;
  existing_data <- for_loop existing_map objaverse_base_path file_path
                            0 objaverse_dict existing_data ;;
  save_to_json file_path existing_data.

End Pipeline.


(** ** Definitions used to state the properties *)

(** The integer a JSON value equals in Python, if any. *)
Definition int_view (v : json) : option Z :=
  match v with
  | JInt z => Some z
  | JBool b => Some (if b then 1 else 0)
  | JFloat q => if Qeq_bool (inject_Z (Qfloor q)) q then Some (Qfloor q) else None
  | _ => None
  end.

Fixpoint int_views (vs : list json) : list Z :=
  match vs with
  | [] => []
  | v :: vs' =>
      match int_view v with
      | Some z => z :: int_views vs'
      | None => int_views vs'
      end
  end.

(** A scanner that started on [s] either stopped with a strictly shorter
    rest or raised [JSONDecodeError] (and no other exception). *)
Definition consumes {A} (s : string) (x : result (A * string)) : Prop :=
  match x with
  | Ok (_, r) => (String.length r < String.length s)%nat
  | Raise e => e = JSONDecodeError
  end.

(** [n] is the smallest non-negative integer that is not in [ids]. *)
Definition least_unused (ids : list Z) (n : Z) : Prop :=
  0 <= n /\ ~ In n ids /\ forall m, 0 <= m < n -> In m ids.

(** [s] between double quotes. *)
Definition quoted (s : string) : string :=
  String "034" (s +:+ String "034" EmptyString).

(** The scale of a record is not negative. *)
Definition nonneg_scale (rec : ManifestRecord) : Prop := (0 <= norm_scale rec)%Q.

Definition empty_state : state := {| files := ∅; dirs := ∅; trace := [] |}.

(** A state whose only file is the manifest at [file_path]. *)
Definition state_with (file_path : string) (f : file) : state :=
  {| files := {[ file_path := f ]}; dirs := ∅; trace := [] |}.

(** The same disk, with the trace started afresh (for a second run). *)
Definition restart (st : state) : state :=
  {| files := files st; dirs := dirs st; trace := [] |}.

Fixpoint count_saves (t : list event) : nat :=
  match t with
  | [] => 0
  | EvSave _ _ :: t' => S (count_saves t')
  | _ :: t' => count_saves t'
  end.

Fixpoint count_exports (t : list event) : nat :=
  match t with
  | [] => 0
  | EvExport _ _ :: t' => S (count_exports t')
  | _ :: t' => count_exports t'
  end.

(** The calls of the conversion in a trace, in order: the request and
    the output path it was called with. *)
Fixpoint conversions_of (t : list event) : list ((string * string) * string) :=
  match t with
  | [] => []
  | EvConvert objaverse_id path obj_path :: t' =>
      ((objaverse_id, path), obj_path) :: conversions_of t'
  | _ :: t' => conversions_of t'
  end.

(** The paths exported to in a trace, in order. *)
Fixpoint exports_of (t : list event) : list string :=
  match t with
  | [] => []
  | EvExport obj_path _ :: t' => obj_path :: exports_of t'
  | _ :: t' => exports_of t'
  end.

(** The number of records held in memory. *)
Definition n_records (data : json) : nat :=
  match data with
  | JArr items => length items
  | _ => 0%nat
  end.

(** The run up to, and without, the final save (lines 68-95). *)
Definition request_loop (w : World) (objaverse_dict : list (string * string))
    (objaverse_base_path file_path : string) : M json :=
  existing_data <- load_existing_json file_path ;;
  existing_map <- lift (set_of_key "objaverse_id" existing_data) ;;
  for_loop w existing_map objaverse_base_path file_path 0 objaverse_dict existing_data.

(** The mesh [convert_glb_to_obj] goes on with after line 52, if any. *)
Definition merged_mesh_of (a : Loaded) : option Trimesh :=
  match a with
  | Scene geometry dump =>
      if forallb (fun g => is_trimesh (snd g)) geometry then Some (concatenate dump)
      else None
  | SingleMesh m => Some m
  end.

(** *** Example environments *)

(** A mesh all of whose vertices coincide at [p]. *)
Definition point_mesh (p : vec3) : Trimesh :=
  {| vertices := [p]; faces := [(0, 0, 0)%nat] |}.

(** One triangle with bounding box extents (2, 4, 1). *)
Definition wedge : Trimesh :=
  {| vertices := [(0, 0, 0)%Q; (2, 0, 0)%Q; (0, 4, 1)%Q]; faces := [(0, 1, 2)%nat] |}.

(** [g/a.glb] is a zero-extent mesh at (1, 1, 1), [g/b.glb] a wedge,
    [g/p.glb] a scene holding a point cloud; nothing else loads.  Every
    export succeeds. *)
Definition demo_load (p : string) : option Loaded :=
  if String.eqb p "g/a.glb" then Some (SingleMesh (point_mesh (1, 1, 1)%Q))
  else if String.eqb p "g/b.glb" then Some (Scene [("wedge", GTrimesh wedge)] [wedge])
  else if String.eqb p "g/p.glb" then Some (Scene [("cloud", GPointCloud [(0, 0, 0)%Q])] [])
  else None.

Definition demo_world : World :=
  {| trimesh_load := demo_load;
     centroid := triangles_center_mean;
     export_ok := fun _ _ => true |}.

(** The same assets, on a disk where no export succeeds. *)
Definition export_fails_world : World :=
  {| trimesh_load := demo_load;
     centroid := triangles_center_mean;
     export_ok := fun _ _ => false |}.

(** [st] with the events [t] added to its trace. *)
Definition add_events (st : state) (t : list event) : state :=
  {| files := files st; dirs := dirs st; trace := trace st ++ t |}.

(** *** The outcome of a conversion and of an iteration, spelled out *)

(** What [convert_glb_to_obj] returns and which events it adds; neither
    depends on the state it runs in. *)
Definition conversion (w : World) (glb_path obj_path : string)
  : result (option Q) * list event :=
  match trimesh_load w glb_path with
  | None => (Ok None, [])
  | Some a =>
      match merged_mesh_of a with
      | None =>
          (Ok None, [EvPrint ("Skipping " +:+ glb_path +:+ " as it is not a valid Trimesh")])
      | Some m =>
          match extents m with
          | None => (Raise MeshError, [])
          | Some e =>
              if export_ok w obj_path (normalized w (max3 e) m)
              then (Ok (Some (max3 e)), [EvExport obj_path (normalized w (max3 e) m)])
              else (Raise ExportError, [])
          end
      end
  end.

(** The state once an iteration has made the output directory of a new
    item and called the conversion. *)
Definition entered (st : state) (objaverse_id path obj_path : string) : state :=
  {| files := files st;
     dirs := {[ os_path_dirname obj_path ]} ∪ dirs st;
     trace := trace st ++ [EvMakedirs (os_path_dirname obj_path);
                           EvConvert objaverse_id path obj_path] |}.

(** The state after a successful [save_to_json]. *)
Definition saved (file_path : string) (data : json) (st : state) : state :=
  {| files := <[file_path := Dumped data]> (files st);
     dirs := {[ os_path_dirname file_path ]} ∪ dirs st;
     trace := trace st ++ [EvMakedirs (os_path_dirname file_path); EvSave file_path data] |}.

(** Every way one iteration of the loop can end. *)
Inductive iteration (w : World) (existing_map : list json) (base file_path : string)
    (idx : nat) (objaverse_id path : string) (data : json) (st : state)
  : result json -> state -> Prop :=
| it_known :
    str_in objaverse_id existing_map = true ->
    iteration w existing_map base file_path idx objaverse_id path data st (Ok data) st
| it_no_group x :
    str_in objaverse_id existing_map = false ->
    index_neg2 (split_on "/" path) = Raise x ->
    iteration w existing_map base file_path idx objaverse_id path data st (Raise x) st
| it_convert_raises gid x t :
    str_in objaverse_id existing_map = false ->
    index_neg2 (split_on "/" path) = Ok gid ->
    conversion w path (obj_path_of base gid objaverse_id) = (Raise x, t) ->
    iteration w existing_map base file_path idx objaverse_id path data st (Raise x)
      (add_events (entered st objaverse_id path (obj_path_of base gid objaverse_id)) t)
| it_not_converted gid t :
    str_in objaverse_id existing_map = false ->
    index_neg2 (split_on "/" path) = Ok gid ->
    conversion w path (obj_path_of base gid objaverse_id) = (Ok None, t) ->
    iteration w existing_map base file_path idx objaverse_id path data st (Ok data)
      (add_events (entered st objaverse_id path (obj_path_of base gid objaverse_id))
         (t ++ [EvPrint (path +:+ " could not be converted to .obj")]))
| it_no_id gid ns t x :
    str_in objaverse_id existing_map = false ->
    index_neg2 (split_on "/" path) = Ok gid ->
    conversion w path (obj_path_of base gid objaverse_id) = (Ok (Some ns), t) ->
    find_next_available_id data = Raise x ->
    iteration w existing_map base file_path idx objaverse_id path data st (Raise x)
      (add_events (entered st objaverse_id path (obj_path_of base gid objaverse_id)) t)
| it_no_append gid ns t new_id x :
    str_in objaverse_id existing_map = false ->
    index_neg2 (split_on "/" path) = Ok gid ->
    conversion w path (obj_path_of base gid objaverse_id) = (Ok (Some ns), t) ->
    find_next_available_id data = Ok new_id ->
    py_append data (new_record new_id objaverse_id gid ns) = Raise x ->
    iteration w existing_map base file_path idx objaverse_id path data st (Raise x)
      (add_events (entered st objaverse_id path (obj_path_of base gid objaverse_id)) t)
| it_recorded gid ns t new_id data' :
    str_in objaverse_id existing_map = false ->
    index_neg2 (split_on "/" path) = Ok gid ->
    conversion w path (obj_path_of base gid objaverse_id) = (Ok (Some ns), t) ->
    find_next_available_id data = Ok new_id ->
    py_append data (new_record new_id objaverse_id gid ns) = Ok data' ->
    (idx mod 250 =? 0)%nat = false ->
    iteration w existing_map base file_path idx objaverse_id path data st (Ok data')
      (add_events (entered st objaverse_id path (obj_path_of base gid objaverse_id)) t)
| it_save_fails gid ns t new_id data' :
    str_in objaverse_id existing_map = false ->
    index_neg2 (split_on "/" path) = Ok gid ->
    conversion w path (obj_path_of base gid objaverse_id) = (Ok (Some ns), t) ->
    find_next_available_id data = Ok new_id ->
    py_append data (new_record new_id objaverse_id gid ns) = Ok data' ->
    (idx mod 250 =? 0)%nat = true ->
    os_path_dirname file_path = "" ->
    iteration w existing_map base file_path idx objaverse_id path data st
      (Raise FileNotFoundError)
      (add_events (entered st objaverse_id path (obj_path_of base gid objaverse_id)) t)
| it_recorded_saved gid ns t new_id data' :
    str_in objaverse_id existing_map = false ->
    index_neg2 (split_on "/" path) = Ok gid ->
    conversion w path (obj_path_of base gid objaverse_id) = (Ok (Some ns), t) ->
    find_next_available_id data = Ok new_id ->
    py_append data (new_record new_id objaverse_id gid ns) = Ok data' ->
    (idx mod 250 =? 0)%nat = true ->
    os_path_dirname file_path <> "" ->
    iteration w existing_map base file_path idx objaverse_id path data st (Ok data')
      (saved file_path data'
         (add_events (entered st objaverse_id path (obj_path_of base gid objaverse_id)) t)).

(** *** Definitions used by the further properties *)

(** The requests whose id is not in the manifest read at the start. *)
Definition new_requests (existing_map : list json) (items : list (string * string))
  : list (string * string) :=
  List.filter (fun item => negb (str_in (fst item) existing_map)) items.

(** How many of the positions [idx], ..., [idx + n - 1] are multiples of
    250. *)
Definition checkpoint_positions (idx n : nat) : nat :=
  length (List.filter (fun i => (i mod 250 =? 0)%nat) (seq idx n)).

(** The ids a typed manifest makes known (line 71). *)
Definition known_ids (records : list ManifestRecord) : list json :=
  map (fun r => JStr (objaverse_id r)) records.

(** [appended w em base items records records']: going through [items]
    in order, for each one that is not known and converts a record is
    put at the end, with the least unused [obj_id] at that moment, the
    id of the request, the second-to-last segment of its path and the
    scale returned by the conversion; [records'] is the outcome. *)
Inductive appended (w : World) (existing_map : list json) (base : string)
  : list (string * string) -> list ManifestRecord -> list ManifestRecord -> Prop :=
| appended_done records :
    appended w existing_map base [] records records
| appended_known oid path items records records' :
    str_in oid existing_map = true ->
    appended w existing_map base items records records' ->
    appended w existing_map base ((oid, path) :: items) records records'
| appended_failed oid path gid items records records' :
    str_in oid existing_map = false ->
    index_neg2 (split_on "/" path) = Ok gid ->
    fst (conversion w path (obj_path_of base gid oid)) = Ok None ->
    appended w existing_map base items records records' ->
    appended w existing_map base ((oid, path) :: items) records records'
| appended_record oid path gid ns new_id items records records' :
    str_in oid existing_map = false ->
    index_neg2 (split_on "/" path) = Ok gid ->
    fst (conversion w path (obj_path_of base gid oid)) = Ok (Some ns) ->
    least_unused (map obj_id records) new_id ->
    appended w existing_map base items
      (records ++ [ {| obj_id := new_id; objaverse_id := oid; github_id := gid;
                       norm_scale := ns |} ]) records' ->
    appended w existing_map base ((oid, path) :: items) records records'.

(** Lines 108-109 of the script: the base directory and the manifest
    path, from the value of the environment variable TMPDIR. *)
Definition objaverse_base_path (tmpdir : string) : string :=
  os_path_join tmpdir ["datasets"; "objaverse"].

Definition objaverse_model_json_path (tmpdir : string) : string :=
  os_path_join (objaverse_base_path tmpdir) ["objaverse_models.json"].

(** A manifest in which id 2 has been freed. *)
Definition three_records : list ManifestRecord :=
  [ {| obj_id := 0; objaverse_id := "x"; github_id := "g"; norm_scale := 1 |};
    {| obj_id := 1; objaverse_id := "y"; github_id := "g"; norm_scale := 2 |};
    {| obj_id := 3; objaverse_id := "z"; github_id := "g"; norm_scale := 4 |} ].

(** Three requests: a zero-extent mesh, a file that does not load, a
    wedge. *)
Definition demo_requests : list (string * string) :=
  [("a", "g/a.glb"); ("c", "g/c.glb"); ("b", "g/b.glb")].

(** What a run over [items] may do: save at the manifest path, convert
    and export for a request that is not known, at the output path of
    that request, make the directories of those paths, and print. *)
Definition event_of_run (existing_map : list json) (base file_path : string)
    (items : list (string * string)) (e : event) : Prop :=
  match e with
  | EvSave f _ => f = file_path
  | EvExport obj _ =>
      exists oid path gid,
        In (oid, path) items /\ str_in oid existing_map = false
        /\ index_neg2 (split_on "/" path) = Ok gid /\ obj = obj_path_of base gid oid
  | EvConvert oid path obj =>
      In (oid, path) items /\ str_in oid existing_map = false
      /\ exists gid, index_neg2 (split_on "/" path) = Ok gid
                     /\ obj = obj_path_of base gid oid
  | EvMakedirs d =>
      d = os_path_dirname file_path
      \/ exists oid path gid,
           In (oid, path) items /\ str_in oid existing_map = false
           /\ index_neg2 (split_on "/" path) = Ok gid
           /\ d = os_path_dirname (obj_path_of base gid oid)
  | EvPrint _ => True
  end.

(** An event that leaves the file at [file_path] alone: no save at all,
    and no export to that path. *)
Definition writes_nothing_at (file_path : string) (e : event) : Prop :=
  match e with
  | EvSave _ _ => False
  | EvExport obj_path _ => obj_path <> file_path
  | _ => True
  end.

(** The output path a record stands for. *)
Definition obj_path_of_record (base : string) (r : ManifestRecord) : string :=
  obj_path_of base (github_id r) (objaverse_id r).

(** * Properties *)

(** ** Results *)

Lemma rbind_Ok {A B} (r : result A) (f : A -> result B) b :
  rbind r f = Ok b -> exists a, r = Ok a /\ f a = Ok b.
Proof. destruct r as [a|e]; simpl; [eauto | discriminate]. Qed.

Lemma rmap_list_length {A B} (f : A -> result B) l ys :
  rmap_list f l = Ok ys -> length ys = length l.
Proof.
  revert ys. induction l as [|x l IH]; simpl; intros ys H.
  - injection H as <-. reflexivity.
  - apply rbind_Ok in H as (y & _ & H).
    apply rbind_Ok in H as (ys' & H' & H).
    injection H as <-. simpl. f_equal. auto.
Qed.

(** ** [find_next_available_id] *)

Lemma py_eq_int_view n v : py_eq_int n v = true <-> int_view v = Some n.
Proof.
  destruct v as [ |b|z|q| | | | | ]; simpl; try (split; discriminate).
  - rewrite Z.eqb_eq. split; [intros -> | intros [= ->]]; reflexivity.
  - rewrite Z.eqb_eq. split; [intros -> | intros [= ->]]; reflexivity.
  - rewrite Qeq_bool_iff. split.
    + intros H.
      assert (Hf : Qfloor q = n) by (rewrite <- H; apply Qfloor_Z).
      rewrite Hf. apply Qeq_bool_iff in H. rewrite H. reflexivity.
    + destruct (Qeq_bool (inject_Z (Qfloor q)) q) eqn:E; [|discriminate].
      intros [= <-]. apply Qeq_bool_iff. exact E.
Qed.

Lemma int_in_views n used : int_in n used = true <-> In n (int_views used).
Proof.
  unfold int_in. induction used as [|v used IH]; simpl.
  - split; [discriminate | tauto].
  - rewrite orb_true_iff, IH, py_eq_int_view.
    destruct (int_view v) as [z|]; simpl.
    + split; (intros [H|H]; [left; congruence | right; exact H]).
    + split; [intros [H|H]; [discriminate | exact H] | auto].
Qed.

Lemma int_views_length used : (length (int_views used) <= length used)%nat.
Proof.
  induction used as [|v used IH]; simpl; [lia|].
  destruct (int_view v); simpl; lia.
Qed.

(** What the loop returns, whenever it returns. *)
Lemma while_in_used_Some fuel used k n :
  while_in_used fuel used k = Some n ->
  k <= n /\ int_in n used = false /\ forall i, k <= i < n -> int_in i used = true.
Proof.
  revert k. induction fuel as [|fuel IH]; simpl; intros k H; [discriminate|].
  destruct (int_in k used) eqn:E.
  - apply IH in H as (H1 & H2 & H3). repeat split; [lia | exact H2 |].
    intros i Hi. destruct (Z.eq_dec i k) as [->|]; [exact E | apply H3; lia].
  - injection H as <-. repeat split; [lia | exact E | intros; lia].
Qed.

(** If the fuel runs out, every tested integer was in the set. *)
Lemma while_in_used_None fuel used k :
  while_in_used fuel used k = None ->
  forall i, k <= i < k + Z.of_nat fuel -> int_in i used = true.
Proof.
  revert k. induction fuel as [|fuel IH]; simpl; intros k H i Hi; [lia|].
  destruct (int_in k used) eqn:E; [|discriminate].
  destruct (Z.eq_dec i k) as [->|]; [exact E|].
  apply (IH _ H). lia.
Qed.

(** Pigeonhole: a set of [length used] elements cannot hold more than
    that many distinct integers. *)
Lemma used_bound used k f :
  (forall i, k <= i < k + Z.of_nat f -> int_in i used = true) ->
  (f <= length used)%nat.
Proof.
  intros H.
  pose (l := map (fun j => k + Z.of_nat j) (seq 0 f)).
  assert (Hnd : List.NoDup l).
  { apply Finite.Injective_map_NoDup; [|apply List.seq_NoDup].
    intros a b Hab. lia. }
  assert (Hincl : incl l (int_views used)).
  { intros z Hz. apply in_map_iff in Hz as (j & <- & Hj).
    apply in_seq in Hj. apply int_in_views, H. lia. }
  pose proof (List.NoDup_incl_length Hnd Hincl) as Hlen.
  unfold l in Hlen. rewrite length_map, length_seq in Hlen.
  pose proof (int_views_length used). lia.
Qed.

(** The loop terminates within [S (length used_ids)] tests. *)
Lemma while_in_used_terminates used :
  exists n, while_in_used (S (length used)) used 0 = Some n.
Proof.
  destruct (while_in_used (S (length used)) used 0) as [n|] eqn:E; [eauto|].
  pose proof (used_bound used 0 (S (length used)) (while_in_used_None _ _ _ E)). lia.
Qed.

(** More fuel does not change the result. *)
Lemma while_in_used_more_fuel fuel fuel' used k n :
  while_in_used fuel used k = Some n -> (fuel <= fuel')%nat ->
  while_in_used fuel' used k = Some n.
Proof.
  revert fuel' k. induction fuel as [|fuel IH]; simpl; intros fuel' k H Hle; [discriminate|].
  destruct fuel' as [|fuel']; [lia|]. simpl.
  destruct (int_in k used); [apply IH; [exact H | lia] | exact H].
Qed.

(** The set comprehension raises nothing but [TypeError] and [KeyError]. *)
Lemma set_of_key_raises key data e :
  set_of_key key data = Raise e -> e = TypeError \/ e = KeyError.
Proof.
  unfold set_of_key.
  destruct (py_iter data) as [items|x] eqn:Hi; cbn [rbind].
  - clear Hi. induction items as [|item items IH]; simpl; [discriminate|].
    destruct (py_getitem item key) as [v|x] eqn:Hg; cbn [rbind].
    + destruct (py_hashable v) as [v'|x] eqn:Hh; cbn [rbind].
      * destruct (rmap_list _ items) as [ys|x]; cbn [rbind]; [discriminate|].
        intros [= <-]. apply IH. reflexivity.
      * intros [= <-]. destruct v; try discriminate; injection Hh as <-; auto.
    + intros [= <-]. destruct item; try (injection Hg as <-; auto).
      simpl in Hg. destruct (dict_get key members); [discriminate|].
      injection Hg as <-. auto.
  - intros [= <-]. destruct data; try discriminate; injection Hi as <-; auto.
Qed.

(** [find_next_available_id] never stops at the bound of its loop. *)
Lemma find_next_available_id_bound_unreached data :
  find_next_available_id data <> Raise LoopBound.
Proof.
  unfold find_next_available_id.
  destruct (set_of_key "obj_id" data) as [used|e] eqn:Hs; cbn [rbind].
  - destruct (while_in_used_terminates used) as [n ->]. discriminate.
  - intros [= ->]. apply set_of_key_raises in Hs as [|]; discriminate.
Qed.

Lemma set_of_key_obj_id records :
  set_of_key "obj_id" (manifest_json records)
  = Ok (map (fun r => JInt (obj_id r)) records).
Proof.
  unfold set_of_key, manifest_json. simpl.
  induction records as [|r records IH]; simpl; [reflexivity|].
  rewrite IH. reflexivity.
Qed.

Lemma int_views_JInt records :
  int_views (map (fun r => JInt (obj_id r)) records) = map obj_id records.
Proof. induction records as [|r records IH]; simpl; [|rewrite IH]; reflexivity. Qed.

Lemma least_unused_unique ids ids' n n' :
  (forall z, In z ids <-> In z ids') ->
  least_unused ids n -> least_unused ids' n' -> n = n'.
Proof.
  intros Hs (H0 & Hn & Hlt) (H0' & Hn' & Hlt').
  destruct (Z.lt_trichotomy n n') as [Hc|[Hc|Hc]]; [|exact Hc|].
  - exfalso. apply Hn, Hs, Hlt'. lia.
  - exfalso. apply Hn', Hs, Hlt. lia.
Qed.

Lemma find_next_available_id_least records :
  exists n, find_next_available_id (manifest_json records) = Ok n
            /\ least_unused (map obj_id records) n.
Proof.
  unfold find_next_available_id. rewrite set_of_key_obj_id. cbn [rbind].
  set (used := map (fun r => JInt (obj_id r)) records).
  destruct (while_in_used_terminates used) as [n Hn]. rewrite Hn.
  exists n. split; [reflexivity|].
  apply while_in_used_Some in Hn as (H0 & Hnot & Hlt).
  unfold least_unused. rewrite <- int_views_JInt. fold used.
  repeat split.
  - exact H0.
  - rewrite <- int_in_views. rewrite Hnot. discriminate.
  - intros m Hm. apply int_in_views, Hlt. exact Hm.
Qed.

(** C4. For every finite sequence of manifest records,
    [find_next_available_id] returns the smallest non-negative integer
    that is the [obj_id] of no record.  It is a pure function (it runs
    outside the monad of statements), its result depends only on the set
    of ids in use, and on ids {0, 1, 3} it returns 2. *)
Theorem next_available_id_smallest_unused (records : list ManifestRecord) :
  (exists n, find_next_available_id (manifest_json records) = Ok n
             /\ least_unused (map obj_id records) n)
  /\ (forall records',
         (forall z, In z (map obj_id records) <-> In z (map obj_id records')) ->
         find_next_available_id (manifest_json records')
         = find_next_available_id (manifest_json records))
  /\ ((forall z, In z (map obj_id records) <-> z = 0 \/ z = 1 \/ z = 3) ->
      find_next_available_id (manifest_json records) = Ok 2).
Proof.
  destruct (find_next_available_id_least records) as (n & Hn & Hl).
  split; [eauto|]. split.
  - intros records' Hs.
    destruct (find_next_available_id_least records') as (n' & Hn' & Hl').
    rewrite Hn, Hn'. f_equal. symmetry. eapply least_unused_unique; eauto.
  - intros Hs. rewrite Hn. f_equal.
    destruct Hl as (H0 & Hnot & Hlt).
    assert (n <> 0) by (intros ->; apply Hnot, Hs; auto).
    assert (n <> 1) by (intros ->; apply Hnot, Hs; auto).
    destruct (Z_lt_le_dec 2 n) as [Hgt|Hle]; [|lia].
    exfalso. assert (H2 : In 2 (map obj_id records)) by (apply Hlt; lia).
    apply Hs in H2. lia.
Qed.

(** The freed id of the spec's scenario: ids 0, 1 and 3 are in use. *)
Example next_available_id_after_removal :
  find_next_available_id
    (manifest_json
       [ {| obj_id := 0; objaverse_id := "a"; github_id := "g"; norm_scale := 1 |};
         {| obj_id := 1; objaverse_id := "b"; github_id := "g"; norm_scale := 2 |};
         {| obj_id := 3; objaverse_id := "d"; github_id := "g"; norm_scale := 4 |} ])
  = Ok 2.
Proof. reflexivity. Qed.

(** ** The decoder: the bounds of its loops are never reached *)

Lemma skip_ws_length s : (String.length (skip_ws s) <= String.length s)%nat.
Proof.
  induction s as [|c s IH]; simpl; [lia|].
  destruct (is_ws c); simpl; lia.
Qed.

Lemma eat_length c s r : eat c s = Some r -> String.length s = S (String.length r).
Proof.
  destruct s as [|c' s]; simpl; [discriminate|].
  destruct (Ascii.eqb c' c); [intros [= ->]; reflexivity | discriminate].
Qed.

Lemma strip_prefix_length p : forall s r,
  strip_prefix p s = Some r -> String.length s = (String.length p + String.length r)%nat.
Proof.
  induction p as [|a p IH]; intros s r; simpl.
  - intros [= ->]. reflexivity.
  - destruct s as [|b s]; [discriminate|].
    destruct (Ascii.eqb a b); [|discriminate].
    intros H. apply IH in H. simpl. lia.
Qed.

Lemma take_digits_length s : forall ds r,
  take_digits s = (ds, r) -> (String.length r <= String.length s)%nat.
Proof.
  induction s as [|c s IH]; simpl; intros ds r.
  - intros [= <- <-]. simpl. lia.
  - destruct (digit_val c).
    + destruct (take_digits s) as [ds' r'] eqn:E. intros [= <- <-].
      specialize (IH _ _ eq_refl). lia.
    + intros [= <- <-]. simpl. lia.
Qed.

Lemma opt_minus_length s : (String.length (snd (opt_minus s)) <= String.length s)%nat.
Proof.
  unfold opt_minus. destruct (eat "-" s) as [r|] eqn:E; simpl; [|lia].
  apply eat_length in E. lia.
Qed.

Lemma match_int_length s ds r :
  match_int s = Some (ds, r) -> (String.length r < String.length s)%nat.
Proof.
  unfold match_int. destruct s as [|c s]; [discriminate|].
  destruct (digit_val c) as [d|]; [|discriminate].
  destruct (d =? 0).
  - intros [= <- <-]. simpl. lia.
  - destruct (take_digits s) as [ds' r'] eqn:E. intros [= <- <-].
    apply take_digits_length in E. simpl. lia.
Qed.

Lemma match_frac_length s : (String.length (snd (match_frac s)) <= String.length s)%nat.
Proof.
  unfold match_frac. destruct (eat "." s) as [r2|] eqn:E; simpl; [|lia].
  apply eat_length in E.
  destruct (take_digits r2) as [[|d ds] r] eqn:Et; simpl; [lia|].
  apply take_digits_length in Et. lia.
Qed.

Lemma match_exp_length s : (String.length (snd (match_exp s)) <= String.length s)%nat.
Proof.
  unfold match_exp.
  destruct (match eat "e" s with Some r => Some r | None => eat "E" s end) as [r3|] eqn:E;
    simpl; [|lia].
  assert (H3 : String.length s = S (String.length r3)).
  { destruct (eat "e" s) as [r|] eqn:E1.
    - injection E as <-. apply (eat_length _ _ _ E1).
    - apply (eat_length _ _ _ E). }
  assert (H4 : forall eneg r4,
    match eat "-" r3, eat "+" r3 with
    | Some r, _ => (true, r)
    | None, Some r => (false, r)
    | None, None => (false, r3)
    end = (eneg, r4) -> (String.length r4 <= String.length r3)%nat).
  { intros eneg r4. destruct (eat "-" r3) as [r|] eqn:Em.
    - intros [= _ <-]. apply eat_length in Em. lia.
    - destruct (eat "+" r3) as [r|] eqn:Ep.
      + intros [= _ <-]. apply eat_length in Ep. lia.
      + intros [= _ <-]. lia. }
  destruct (match eat "-" r3, eat "+" r3 with
            | Some r, _ => (true, r)
            | None, Some r => (false, r)
            | None, None => (false, r3)
            end) as [eneg r4] eqn:Es.
  specialize (H4 _ _ eq_refl).
  destruct (take_digits r4) as [[|d ds] r] eqn:Et; simpl; [lia|].
  apply take_digits_length in Et. lia.
Qed.

Lemma match_number_length s v r :
  match_number s = Some (v, r) -> (String.length r < String.length s)%nat.
Proof.
  unfold match_number.
  pose proof (opt_minus_length s) as H1.
  destruct (opt_minus s) as [negative s1]. simpl in H1.
  destruct (match_int s1) as [[int_digits s2]|] eqn:Ei; [|discriminate].
  apply match_int_length in Ei.
  pose proof (match_frac_length s2) as H3.
  destruct (match_frac s2) as [frac s3]. simpl in H3.
  pose proof (match_exp_length s3) as H4.
  destruct (match_exp s3) as [exponent s4]. simpl in H4.
  destruct frac, exponent; intros [= _ <-]; lia.
Qed.

Lemma decode_uXXXX_spec s :
  match decode_uXXXX s with
  | Ok (_, r) => String.length s = (4 + String.length r)%nat
  | Raise e => e = JSONDecodeError
  end.
Proof.
  unfold decode_uXXXX.
  destruct s as [|a [|b [|c [|d rest]]]]; try reflexivity.
  destruct (hex_val a), (hex_val b), (hex_val c), (hex_val d); reflexivity.
Qed.

Lemma consumes_weaken {A} s s' (x : result (A * string)) :
  consumes s' x -> (String.length s' <= String.length s)%nat -> consumes s x.
Proof. destruct x as [[v r]|e]; simpl; [lia | auto]. Qed.

Lemma scanstring_consumes fuel : forall s acc,
  (String.length s < fuel)%nat -> consumes s (scanstring fuel s acc).
Proof.
  induction fuel as [|fuel IH]; intros s acc Hf; [lia|].
  cbn [scanstring].
  destruct s as [|c rest]; [reflexivity|]. simpl in Hf.
  destruct (Ascii.eqb c "034"); [simpl; lia|].
  destruct (Ascii.eqb c "\").
  - destruct rest as [|e rest']; [reflexivity|]. simpl in Hf.
    destruct (Ascii.eqb e "u").
    + pose proof (decode_uXXXX_spec rest') as Hu.
      destruct (decode_uXXXX rest') as [[uni r1]|x]; [|exact Hu].
      cbn [rbind].
      assert (Hr1 : forall acc', consumes (String c (String e rest'))
                                   (scanstring fuel r1 acc')).
      { intros acc'. eapply consumes_weaken; [apply IH; lia | simpl; lia]. }
      destruct ((55296 <=? uni) && (uni <=? 56319))%bool; [|apply Hr1].
      destruct (strip_prefix "\u" r1) as [r1'|] eqn:Ep; [|apply Hr1].
      apply strip_prefix_length in Ep. simpl in Ep.
      pose proof (decode_uXXXX_spec r1') as Hu2.
      destruct (decode_uXXXX r1') as [[uni2 r2]|x]; [|exact Hu2].
      cbn [rbind].
      destruct ((56320 <=? uni2) && (uni2 <=? 57343))%bool; [|apply Hr1].
      eapply consumes_weaken; [apply IH; lia | simpl; lia].
    + destruct (simple_escape e); [|reflexivity].
      eapply consumes_weaken; [apply IH; lia | simpl; lia].
  - destruct (N_of_ascii c <? 32)%N; [reflexivity|].
    eapply consumes_weaken; [apply IH; lia | simpl; lia].
Qed.

Lemma scan_str_consumes s : consumes s (scan_str s).
Proof. apply scanstring_consumes. lia. Qed.

Lemma scan_consumes fuel :
  (forall s, (2 * String.length s + 1 <= fuel)%nat -> consumes s (scan_once fuel s))
  /\ (forall s acc, (2 * String.length s + 2 <= fuel)%nat ->
        consumes s (scan_items fuel s acc))
  /\ (forall s acc, (2 * String.length s + 2 <= fuel)%nat ->
        consumes s (scan_members fuel s acc)).
Proof.
  induction fuel as [|fuel (IHo & IHi & IHm)].
  { repeat split; intros; lia. }
  split; [|split].
  - (* scan_once *)
    intros s Hf. cbn [scan_once].
    destruct s as [|c rest]; [reflexivity|].
    change (String.length (String c rest)) with (S (String.length rest)) in Hf.
    pose proof (skip_ws_length rest) as Hw.
    destruct (Ascii.eqb c "034").
    { pose proof (scan_str_consumes rest) as Hs.
      destruct (scan_str rest) as [[str r]|x]; [|exact Hs]. simpl in *. lia. }
    destruct (Ascii.eqb c "{").
    { destruct (eat "}" (skip_ws rest)) as [r|] eqn:E1.
      - apply eat_length in E1. simpl. lia.
      - destruct (eat "034" (skip_ws rest)) as [r|] eqn:E2; [|reflexivity].
        apply eat_length in E2.
        eapply consumes_weaken; [apply IHm; lia | simpl; lia]. }
    destruct (Ascii.eqb c "[").
    { destruct (eat "]" (skip_ws rest)) as [r|] eqn:E1.
      - apply eat_length in E1. simpl. lia.
      - eapply consumes_weaken; [apply IHi; lia | simpl; lia]. }
    destruct (strip_prefix "null" (String c rest)) as [r|] eqn:En.
    { apply strip_prefix_length in En. simpl in *. lia. }
    destruct (strip_prefix "true" (String c rest)) as [r|] eqn:Et.
    { apply strip_prefix_length in Et. simpl in *. lia. }
    destruct (strip_prefix "false" (String c rest)) as [r|] eqn:Ef.
    { apply strip_prefix_length in Ef. simpl in *. lia. }
    destruct (match_number (String c rest)) as [[v r]|] eqn:Em.
    { apply match_number_length in Em. exact Em. }
    destruct (strip_prefix "NaN" (String c rest)) as [r|] eqn:Ea.
    { apply strip_prefix_length in Ea. simpl in *. lia. }
    destruct (strip_prefix "Infinity" (String c rest)) as [r|] eqn:Eb.
    { apply strip_prefix_length in Eb. simpl in *. lia. }
    destruct (strip_prefix "-Infinity" (String c rest)) as [r|] eqn:Ec.
    { apply strip_prefix_length in Ec. simpl in *. lia. }
    reflexivity.
  - (* scan_items *)
    intros s acc Hf. cbn [scan_items].
    assert (Ho : consumes s (scan_once fuel s)) by (apply IHo; lia).
    destruct (scan_once fuel s) as [[value r]|x]; [|exact Ho].
    cbn [rbind]. simpl in Ho.
    pose proof (skip_ws_length r) as Hw.
    destruct (eat "]" (skip_ws r)) as [r'|] eqn:E1.
    { apply eat_length in E1. simpl. lia. }
    destruct (eat "," (skip_ws r)) as [r'|] eqn:E2; [|reflexivity].
    apply eat_length in E2. pose proof (skip_ws_length r') as Hw'.
    eapply consumes_weaken; [apply IHi; lia | lia].
  - (* scan_members *)
    intros s acc Hf. cbn [scan_members].
    pose proof (scan_str_consumes s) as Hs.
    destruct (scan_str s) as [[key r]|x]; [|exact Hs].
    cbn [rbind]. simpl in Hs.
    pose proof (skip_ws_length r) as Hw.
    destruct (eat ":" (skip_ws r)) as [r1|] eqn:E1; [|reflexivity].
    apply eat_length in E1. pose proof (skip_ws_length r1) as Hw1.
    assert (Ho : consumes (skip_ws r1) (scan_once fuel (skip_ws r1))) by (apply IHo; lia).
    destruct (scan_once fuel (skip_ws r1)) as [[value r2]|x]; [|exact Ho].
    cbn [rbind]. simpl in Ho.
    pose proof (skip_ws_length r2) as Hw2.
    destruct (eat "}" (skip_ws r2)) as [r'|] eqn:E2.
    { apply eat_length in E2. simpl. lia. }
    destruct (eat "," (skip_ws r2)) as [r'|] eqn:E3; [|reflexivity].
    apply eat_length in E3. pose proof (skip_ws_length r') as Hw'.
    destruct (eat "034" (skip_ws r')) as [r''|] eqn:E4; [|reflexivity].
    apply eat_length in E4.
    eapply consumes_weaken; [apply IHm; lia | lia].
Qed.

(** [json_loads] raises nothing but [JSONDecodeError]. *)
Lemma json_loads_raises text e : json_loads text = Raise e -> e = JSONDecodeError.
Proof.
  unfold json_loads.
  pose proof (proj1 (scan_consumes (2 * String.length text + 2)) (skip_ws text)) as H.
  pose proof (skip_ws_length text) as Hw.
  specialize (H ltac:(lia)).
  destruct (scan_once _ (skip_ws text)) as [[value r]|x]; cbn [rbind].
  - destruct (skip_ws r); [discriminate | intros [= <-]; reflexivity].
  - intros [= <-]. exact H.
Qed.

(** ** The monad of statements *)

Lemma bind_Ok {A B} (c : M A) (f : A -> M B) st b st' :
  (x <- c ;; f x) st = (Ok b, st') ->
  exists a st1, c st = (Ok a, st1) /\ f a st1 = (Ok b, st').
Proof.
  unfold bind. destruct (c st) as [[a|e] st1]; [eauto | discriminate].
Qed.

Lemma bind_run_Ok {A B} (c : M A) (f : A -> M B) st a st1 :
  c st = (Ok a, st1) -> (x <- c ;; f x) st = f a st1.
Proof. unfold bind. intros ->. reflexivity. Qed.

Lemma bind_run_Raise {A B} (c : M A) (f : A -> M B) st e st1 :
  c st = (Raise e, st1) -> (x <- c ;; f x) st = (Raise e, st1).
Proof. unfold bind. intros ->. reflexivity. Qed.

Lemma bind_outcome {A B} (c : M A) (f : A -> M B) st r st' :
  (x <- c ;; f x) st = (r, st') ->
  (exists a st1, c st = (Ok a, st1) /\ f a st1 = (r, st'))
  \/ (exists e, c st = (Raise e, st') /\ r = Raise e).
Proof.
  unfold bind. destruct (c st) as [[a|e] st1]; [eauto|].
  intros [= <- <-]. eauto.
Qed.

(** ** [load_existing_json] *)



(** A manifest with one record, as text, loads as that record; the same
    text with single quotes is no JSON document. *)
Example load_text_manifest :
  fst (load_existing_json "m.json"
         (state_with "m.json"
            (Text ("[{" +:+ quoted "obj_id" +:+ ": 3, "
                   +:+ quoted "objaverse_id" +:+ ": " +:+ quoted "abc" +:+ ", "
                   +:+ quoted "github_id" +:+ ": " +:+ quoted "g" +:+ ", "
                   +:+ quoted "norm_scale" +:+ ": 4.0}]"))))
  = Ok (manifest_json [ {| obj_id := 3; objaverse_id := "abc"; github_id := "g";
                           norm_scale := 40 # 10 |} ])
  /\ fst (load_existing_json "m.json"
            (state_with "m.json" (Text "[{'obj_id': 3, 'norm_scale': 4.0}]")))
     = Raise JSONDecodeError.
Proof. split; vm_compute; reflexivity. Qed.

(** ** Counting events *)

Lemma count_saves_app t1 t2 : count_saves (t1 ++ t2) = (count_saves t1 + count_saves t2)%nat.
Proof.
  induction t1 as [|e t1 IH]; simpl; [reflexivity|].
  destruct e; simpl; rewrite IH; reflexivity.
Qed.

Lemma count_exports_app t1 t2 :
  count_exports (t1 ++ t2) = (count_exports t1 + count_exports t2)%nat.
Proof.
  induction t1 as [|e t1 IH]; simpl; [reflexivity|].
  destruct e; simpl; rewrite IH; reflexivity.
Qed.

(** ** One iteration of the loop *)

Lemma save_to_json_outcome file data st r st' :
  save_to_json file data st = (r, st') ->
  (os_path_dirname file = "" /\ r = Raise FileNotFoundError /\ st' = st)
  \/ (os_path_dirname file <> "" /\ r = Ok tt
      /\ st' = {| files := <[file := Dumped data]> (files st);
                  dirs := {[ os_path_dirname file ]} ∪ dirs st;
                  trace := trace st ++ [EvMakedirs (os_path_dirname file); EvSave file data] |}).
Proof.
  unfold save_to_json, bind, makedirs, lift.
  destruct (String.eqb_spec (os_path_dirname file) "") as [E|E].
  - intros [= <- <-]. left. auto.
  - simpl. rewrite <- List.app_assoc. simpl. intros [= <- <-]. right. auto.
Qed.

Lemma makedirs_outcome d st r st' :
  makedirs d st = (r, st') ->
  (d = "" /\ r = Raise FileNotFoundError /\ st' = st)
  \/ (d <> "" /\ r = Ok tt
      /\ st' = {| files := files st; dirs := {[ d ]} ∪ dirs st;
                  trace := trace st ++ [EvMakedirs d] |}).
Proof.
  unfold makedirs, lift. destruct (String.eqb_spec d "") as [E|E].
  - intros [= <- <-]. left. auto.
  - intros [= <- <-]. right. auto.
Qed.


(** ** Paths *)

Lemma list_ascii_of_string_app a b :
  list_ascii_of_string (a +:+ b) = list_ascii_of_string a ++ list_ascii_of_string b.
Proof. induction a as [|c a IH]; simpl; [|rewrite IH]; reflexivity. Qed.

Lemma drop_while_all {A} (f : A -> bool) l : drop_while f l = [] -> forallb f l = true.
Proof.
  induction l as [|x l IH]; simpl; [reflexivity|].
  destruct (f x); [exact IH | discriminate].
Qed.

Lemma forallb_rev {A} (f : A -> bool) l : forallb f (rev l) = forallb f l.
Proof.
  induction l as [|x l IH]; simpl; [reflexivity|].
  rewrite forallb_app, IH. simpl. rewrite andb_true_r. apply andb_comm.
Qed.

Lemma string_of_list_ascii_nonempty l : l <> [] -> string_of_list_ascii l <> "".
Proof. destruct l; [congruence | discriminate]. Qed.

Lemma ends_with_sep_rev s :
  ends_with_sep s = true ->
  exists l, rev (list_ascii_of_string s) = "/"%char :: l.
Proof.
  induction s as [|c s IH]; simpl; [discriminate|].
  destruct s as [|c' s'].
  - intros H. apply Ascii.eqb_eq in H as ->. simpl. eauto.
  - intros H. destruct (IH H) as [l Hl]. rewrite Hl. simpl. eauto.
Qed.

(** The directory of [p/name], for a name without separator, is not the
    empty path: [os.makedirs] can make it. *)
Lemma dirname_join_nonempty p name :
  p <> "" ->
  forallb (fun c => negb (is_sep c)) (list_ascii_of_string name) = true ->
  os_path_dirname (join_step p name) <> "".
Proof.
  intros Hp Hname.
  assert (Hdrop : forall l,
    drop_while (fun c => negb (is_sep c)) (rev (list_ascii_of_string name) ++ "/"%char :: l)
    = "/"%char :: l).
  { intros l. rewrite <- forallb_rev in Hname.
    induction (rev (list_ascii_of_string name)) as [|c cs IH]; simpl; [reflexivity|].
    simpl in Hname. apply andb_prop in Hname as [-> Hcs]. auto. }
  assert (Hhead : exists l,
    drop_while (fun c => negb (is_sep c)) (rev (list_ascii_of_string (join_step p name)))
    = "/"%char :: l).
  { unfold join_step.
    assert (Hs : starts_with_sep name = false).
    { destruct name as [|c name]; [reflexivity|]. simpl in *.
      apply andb_prop in Hname as [Hc _]. unfold is_sep in Hc.
      destruct (Ascii.eqb c "/"); [discriminate | reflexivity]. }
    rewrite Hs. destruct (String.eqb_spec p "") as [|_]; [contradiction|]. simpl orb.
    destruct (ends_with_sep p) eqn:He.
    - destruct (ends_with_sep_rev p He) as [l Hl].
      rewrite list_ascii_of_string_app, rev_app_distr, Hl. eauto.
    - rewrite !list_ascii_of_string_app, !rev_app_distr. simpl.
      rewrite <- app_assoc. simpl. eauto. }
  destruct Hhead as [l Hl]. unfold os_path_dirname. rewrite Hl.
  apply string_of_list_ascii_nonempty.
  destruct (forallb is_sep ("/"%char :: l)) eqn:Hall.
  - intros H. apply (f_equal (@length ascii)) in H. rewrite length_rev in H. discriminate.
  - intros H. apply (f_equal (@rev ascii)) in H. rewrite rev_involutive in H.
    change (rev []) with (@nil ascii) in H.
    apply drop_while_all in H. congruence.
Qed.

Lemma join_step_nonempty p b : p <> "" \/ b <> "" -> join_step p b <> "".
Proof.
  unfold join_step. intros H.
  destruct (starts_with_sep b) eqn:Hs.
  - destruct b; [discriminate | congruence].
  - destruct (String.eqb_spec p "") as [->|Hp]; simpl.
    + destruct H as [H|H]; [congruence | exact H].
    + destruct (ends_with_sep p); (destruct p; [contradiction | discriminate]).
Qed.

Lemma obj_path_dir_nonempty base gid oid :
  os_path_dirname (obj_path_of base gid oid) <> "".
Proof.
  unfold obj_path_of, os_path_join. simpl.
  apply dirname_join_nonempty; [|reflexivity].
  apply join_step_nonempty. left.
  apply join_step_nonempty. left.
  apply join_step_nonempty. right. discriminate.
Qed.

Lemma append_assoc' (a b c : string) : (a +:+ b) +:+ c = a +:+ (b +:+ c).
Proof.
  induction a as [|x a IH]; [reflexivity|].
  change (String x ((a +:+ b) +:+ c) = String x (a +:+ (b +:+ c))).
  f_equal. exact IH.
Qed.

Lemma ends_with_sep_app p b : b <> "" -> ends_with_sep (p +:+ b) = ends_with_sep b.
Proof.
  intros Hb. induction p as [|c p IH]; [reflexivity|].
  change (String c p +:+ b) with (String c (p +:+ b)).
  simpl. destruct (p +:+ b) eqn:E; [|exact IH].
  destruct p; [simpl in E; contradiction | discriminate].
Qed.

Lemma join_step_plain p b :
  p <> "" -> ends_with_sep p = false -> starts_with_sep b = false ->
  join_step p b = p +:+ "/" +:+ b.
Proof.
  intros Hp He Hs. unfold join_step. rewrite Hs, He.
  destruct (String.eqb_spec p ""); [contradiction | reflexivity].
Qed.

Lemma rev_last_not_sep p :
  p <> "" -> ends_with_sep p = false ->
  exists c l, rev (list_ascii_of_string p) = c :: l /\ is_sep c = false.
Proof.
  induction p as [|c p IH]; [congruence|]. intros _ He.
  destruct p as [|c' p'].
  - simpl in *. exists c, []. auto.
  - destruct IH as (d & l & Hl & Hd); [discriminate | exact He |].
    change (list_ascii_of_string (String c (String c' p')))
      with (c :: list_ascii_of_string (String c' p')).
    change (rev (c :: list_ascii_of_string (String c' p')))
      with (rev (list_ascii_of_string (String c' p')) ++ [c]).
    rewrite Hl. simpl. eauto.
Qed.

Lemma dirname_plain p name :
  p <> "" -> ends_with_sep p = false ->
  forallb (fun c => negb (is_sep c)) (list_ascii_of_string name) = true ->
  os_path_dirname (p +:+ "/" +:+ name) = p.
Proof.
  intros Hp He Hname.
  destruct (rev_last_not_sep p Hp He) as (c & l & Hl & Hc).
  unfold os_path_dirname.
  rewrite !list_ascii_of_string_app, !rev_app_distr. simpl.
  rewrite <- app_assoc. simpl.
  assert (Hdrop : forall t,
    drop_while (fun c => negb (is_sep c)) (rev (list_ascii_of_string name) ++ "/"%char :: t)
    = "/"%char :: t).
  { intros t. rewrite <- forallb_rev in Hname.
    induction (rev (list_ascii_of_string name)) as [|x xs IH]; simpl; [reflexivity|].
    simpl in Hname. apply andb_prop in Hname as [-> Hxs]. auto. }
  rewrite Hdrop, Hl.
  assert (Hall : forallb is_sep ("/"%char :: c :: l) = false)
    by (simpl; rewrite Hc; reflexivity).
  assert (Hstrip : drop_while is_sep ("/"%char :: c :: l) = c :: l)
    by (simpl; rewrite Hc; reflexivity).
  rewrite Hall, Hstrip.
  rewrite <- Hl, rev_involutive. apply string_of_list_ascii_of_string.
Qed.

(** For ordinary components the directory is
    [base/objs/github_id/objaverse_id], as the output layout says. *)
Lemma obj_path_dir_plain base gid oid :
  base <> "" -> ends_with_sep base = false ->
  gid <> "" -> starts_with_sep gid = false -> ends_with_sep gid = false ->
  oid <> "" -> starts_with_sep oid = false -> ends_with_sep oid = false ->
  os_path_dirname (obj_path_of base gid oid)
  = base +:+ "/objs/" +:+ gid +:+ "/" +:+ oid.
Proof.
  intros Hb Hbe Hg Hgs Hge Ho Hos Hoe.
  unfold obj_path_of, os_path_join. simpl.
  rewrite (join_step_plain base "objs") by auto.
  assert (H1 : base +:+ "/" +:+ "objs" <> "") by (destruct base; [contradiction | discriminate]).
  assert (E1 : ends_with_sep (base +:+ "/" +:+ "objs") = false)
    by (rewrite ends_with_sep_app by discriminate; reflexivity).
  rewrite (join_step_plain _ gid) by auto.
  assert (H2 : (base +:+ "/" +:+ "objs") +:+ "/" +:+ gid <> "")
    by (destruct base; [contradiction | discriminate]).
  assert (E2 : ends_with_sep ((base +:+ "/" +:+ "objs") +:+ "/" +:+ gid) = false).
  { rewrite ends_with_sep_app by discriminate.
    rewrite (ends_with_sep_app "/" gid) by exact Hg. exact Hge. }
  rewrite (join_step_plain _ oid) by auto.
  assert (H3 : ((base +:+ "/" +:+ "objs") +:+ "/" +:+ gid) +:+ "/" +:+ oid <> "")
    by (destruct base; [contradiction | discriminate]).
  assert (E3 : ends_with_sep (((base +:+ "/" +:+ "objs") +:+ "/" +:+ gid) +:+ "/" +:+ oid)
               = false).
  { rewrite ends_with_sep_app by discriminate.
    rewrite (ends_with_sep_app "/" oid) by exact Ho. exact Hoe. }
  rewrite (join_step_plain _ "model_scaled.obj") by auto.
  rewrite dirname_plain by auto.
  rewrite !append_assoc'. reflexivity.
Qed.

Example obj_path_dir_demo :
  os_path_dirname (obj_path_of "/tmp/base" "000-023" "abc123") = "/tmp/base/objs/000-023/abc123".
Proof. reflexivity. Qed.

(** A segment of [s.split(sep)] holds no separator. *)
Lemma split_on_no_sep sep s : forall seg,
  In seg (split_on sep s) ->
  forallb (fun c => negb (Ascii.eqb c sep)) (list_ascii_of_string seg) = true.
Proof.
  induction s as [|c s IH]; simpl; intros seg Hin.
  - destruct Hin as [<-|[]]. reflexivity.
  - destruct (Ascii.eqb c sep) eqn:E.
    + destruct Hin as [<-|Hin]; [reflexivity | auto].
    + destruct (split_on sep s) as [|seg0 segs].
      * destruct Hin as [<-|[]]. simpl. rewrite E. reflexivity.
      * destruct Hin as [<-|Hin].
        -- simpl. rewrite E. simpl. apply IH. left. reflexivity.
        -- apply IH. right. exact Hin.
Qed.

Lemma index_neg2_In {A} (l : list A) x : index_neg2 l = Ok x -> In x l.
Proof.
  unfold index_neg2. intros H. apply in_rev.
  destruct (rev l) as [|a [|b t]]; try discriminate.
  injection H as <-. right. left. reflexivity.
Qed.

Lemma no_sep_starts s :
  forallb (fun c => negb (is_sep c)) (list_ascii_of_string s) = true ->
  starts_with_sep s = false.
Proof.
  destruct s as [|c s]; [reflexivity|]. simpl. unfold is_sep.
  destruct (Ascii.eqb c "/"); [discriminate | reflexivity].
Qed.

Lemma no_sep_ends s :
  forallb (fun c => negb (is_sep c)) (list_ascii_of_string s) = true ->
  ends_with_sep s = false.
Proof.
  induction s as [|c s IH]; [reflexivity|]. simpl. unfold is_sep at 1.
  intros H. apply andb_prop in H as [Hc Hs].
  destruct s as [|c' s'].
  - destruct (Ascii.eqb c "/"); [discriminate | reflexivity].
  - apply IH. exact Hs.
Qed.

(** The group taken from a path is one of its segments: it holds no
    separator. *)
Lemma github_id_plain path gid :
  index_neg2 (split_on "/" path) = Ok gid ->
  starts_with_sep gid = false /\ ends_with_sep gid = false.
Proof.
  intros H. apply index_neg2_In, split_on_no_sep in H.
  split; [apply no_sep_starts | apply no_sep_ends]; exact H.
Qed.

(** ** The outcome of a conversion and of an iteration *)

Lemma add_events_nil st : add_events st [] = st.
Proof. destruct st. unfold add_events. simpl. rewrite app_nil_r. reflexivity. Qed.

Lemma add_events_app st t1 t2 : add_events (add_events st t1) t2 = add_events st (t1 ++ t2).
Proof. unfold add_events. simpl. rewrite <- app_assoc. reflexivity. Qed.

Lemma convert_glb_to_obj_run w p obj st :
  convert_glb_to_obj w p obj st
  = (fst (conversion w p obj), add_events st (snd (conversion w p obj))).
Proof.
  unfold convert_glb_to_obj, conversion, merged_mesh_of.
  assert (Hn : forall m,
    normalize_and_export w m obj st
    = (fst match extents m with
           | None => (Raise MeshError, [])
           | Some e =>
               if export_ok w obj (normalized w (max3 e) m)
               then (Ok (Some (max3 e)), [EvExport obj (normalized w (max3 e) m)])
               else (Raise ExportError, [])
           end,
       add_events st (snd match extents m with
           | None => (Raise MeshError, [])
           | Some e =>
               if export_ok w obj (normalized w (max3 e) m)
               then (Ok (Some (max3 e)), [EvExport obj (normalized w (max3 e) m)])
               else (Raise ExportError, [])
           end))).
  { intros m. unfold normalize_and_export, export, bind, lift, ret, emit.
    destruct (extents m) as [e|]; simpl; [|rewrite add_events_nil; reflexivity].
    destruct (export_ok w obj (normalized w (max3 e) m)); simpl;
      [reflexivity | rewrite add_events_nil; reflexivity]. }
  destruct (trimesh_load w p) as [[geometry dump|m]|]; simpl.
  - destruct (forallb _ geometry); [apply Hn | reflexivity].
  - apply Hn.
  - unfold ret. rewrite add_events_nil. reflexivity.
Qed.

(** The result of a conversion does not depend on the state. *)
Lemma convert_result_state_independent w p obj st1 st2 :
  fst (convert_glb_to_obj w p obj st1) = fst (convert_glb_to_obj w p obj st2).
Proof. rewrite !convert_glb_to_obj_run. reflexivity. Qed.

Lemma save_to_json_saved file data st :
  os_path_dirname file <> "" -> save_to_json file data st = (Ok tt, saved file data st).
Proof.
  intros H. destruct (save_to_json file data st) as [r st'] eqn:E.
  apply save_to_json_outcome in E as [(E & _)|(_ & -> & ->)]; [contradiction | reflexivity].
Qed.

Lemma save_to_json_fails file data st :
  os_path_dirname file = "" -> save_to_json file data st = (Raise FileNotFoundError, st).
Proof.
  intros H. destruct (save_to_json file data st) as [r st'] eqn:E.
  apply save_to_json_outcome in E as [(_ & -> & ->)|(E & _)]; [reflexivity | contradiction].
Qed.

Lemma convert_glb_to_obj_inv w p obj st r st' :
  convert_glb_to_obj w p obj st = (r, st') ->
  exists t, conversion w p obj = (r, t) /\ st' = add_events st t.
Proof.
  rewrite convert_glb_to_obj_run. intros [= <- <-].
  exists (snd (conversion w p obj)). split; [|reflexivity].
  destruct (conversion w p obj); reflexivity.
Qed.

(** [loop_body] ends in one of the ways listed by [iteration]. *)
Lemma loop_body_inv w em base file idx oid path data st r st' :
  loop_body w em base file idx (oid, path) data st = (r, st') ->
  iteration w em base file idx oid path data st r st'.
Proof.
  intros H. unfold loop_body in H.
  destruct (str_in oid em) eqn:Hin; simpl negb in H; cbv iota in H.
  { unfold ret in H. injection H as <- <-. apply it_known. exact Hin. }
  apply bind_outcome in H as [(gid & st1 & Hg & H)|(x & Hg & ->)].
  2:{ unfold lift in Hg. injection Hg as Hg <-. apply it_no_group; assumption. }
  unfold lift in Hg. injection Hg as Hg <-.
  apply bind_outcome in H as [([] & st1 & Hm & H)|(x & Hm & ->)].
  2:{ apply makedirs_outcome in Hm as [(E & _)|(_ & [=] & _)].
      exfalso. exact (obj_path_dir_nonempty _ _ _ E). }
  apply makedirs_outcome in Hm as [(_ & [=] & _)|(_ & _ & ->)].
  apply bind_outcome in H as [([] & st1 & He & H)|(x & [=] & _)].
  unfold emit in He. injection He as <-. cbn [files dirs trace] in H.
  rewrite <- app_assoc in H. cbn [app] in H.
  fold (entered st oid path (obj_path_of base gid oid)) in H.
  apply bind_outcome in H as [(ns & st2 & Hc & H)|(x & Hc & ->)].
  2:{ apply convert_glb_to_obj_inv in Hc as (t & Hc & ->).
      eapply it_convert_raises; eassumption. }
  apply convert_glb_to_obj_inv in Hc as (t & Hc & ->).
  destruct ns as [ns|].
  2:{ unfold bind, print, emit, ret in H. injection H as <- <-.
      match goal with
      | |- iteration _ _ _ _ _ _ _ _ _ _ ?s =>
          replace s with
            (add_events (entered st oid path (obj_path_of base gid oid))
               (t ++ [EvPrint (path +:+ " could not be converted to .obj")]))
      end.
      - eapply it_not_converted; eassumption.
      - unfold add_events. cbn [files dirs trace]. rewrite <- app_assoc. reflexivity. }
  apply bind_outcome in H as [(new_id & st3 & Hf & H)|(x & Hf & ->)].
  2:{ unfold lift in Hf. injection Hf as Hf <-. eapply it_no_id; eassumption. }
  unfold lift in Hf. injection Hf as Hf <-.
  apply bind_outcome in H as [(data' & st3 & Ha & H)|(x & Ha & ->)].
  2:{ unfold lift in Ha. injection Ha as Ha <-. eapply it_no_append; eassumption. }
  unfold lift in Ha. injection Ha as Ha <-.
  destruct (idx mod 250 =? 0)%nat eqn:Hi.
  - apply bind_outcome in H as [([] & st3 & Hs & H)|(x & Hs & ->)].
    + unfold ret in H. injection H as <- <-.
      apply save_to_json_outcome in Hs as [(_ & [=] & _)|(E & _ & ->)].
      eapply it_recorded_saved; eassumption.
    + apply save_to_json_outcome in Hs as [(E & [= ->] & ->)|(_ & [=] & _)].
      eapply it_save_fails; eassumption.
  - unfold bind, ret in H. injection H as <- <-. eapply it_recorded; eassumption.
Qed.

Lemma loop_body_iteration w em base file idx oid path data st :
  iteration w em base file idx oid path data st
    (fst (loop_body w em base file idx (oid, path) data st))
    (snd (loop_body w em base file idx (oid, path) data st)).
Proof. apply loop_body_inv. apply surjective_pairing. Qed.

(** ** Checkpoints *)

(** A conversion saves nothing, and exports one mesh exactly when it
    returns a scale. *)
Lemma conversion_counts w p obj x t :
  conversion w p obj = (x, t) ->
  count_saves t = 0%nat
  /\ count_exports t = match x with Ok (Some _) => 1%nat | _ => 0%nat end.
Proof.
  unfold conversion.
  destruct (trimesh_load w p) as [a|]; [|intros [= <- <-]; auto].
  destruct (merged_mesh_of a) as [m|]; [|intros [= <- <-]; auto].
  destruct (extents m) as [e|]; [|intros [= <- <-]; auto].
  destruct (export_ok w obj _); intros [= <- <-]; auto.
Qed.

Lemma py_append_n_records data d data' :
  py_append data d = Ok data' -> n_records data' = S (n_records data).
Proof.
  destruct data; try discriminate. intros [= <-]. simpl.
  rewrite length_app. simpl. lia.
Qed.



(** ** The output directory *)

(** Once an iteration has found the group of a new item, the output
    directory is made, whatever comes next. *)
Lemma loop_body_makes_directory w em base file idx oid path gid data st r st' :
  str_in oid em = false ->
  index_neg2 (split_on "/" path) = Ok gid ->
  loop_body w em base file idx (oid, path) data st = (r, st') ->
  os_path_dirname (obj_path_of base gid oid) ∈ dirs st'.
Proof.
  intros Hnew Hg H. apply loop_body_inv in H.
  inversion H; subst; try congruence;
    match goal with
    | Hg' : index_neg2 _ = Ok ?g |- _ => assert (g = gid) by congruence; subst g
    end; cbn; set_solver.
Qed.

(** Across a whole loop that runs to its end, every requested id that is
    not in the manifest has its output directory made. *)
Lemma loop_body_dirs w em base file idx item data st r st' :
  loop_body w em base file idx item data st = (r, st') -> dirs st ⊆ dirs st'.
Proof.
  destruct item as [oid path]. intros H. apply loop_body_inv in H.
  inversion H; subst; cbn; set_solver.
Qed.

Lemma for_loop_dirs w em base file items : forall idx data st r st',
  for_loop w em base file idx items data st = (r, st') -> dirs st ⊆ dirs st'.
Proof.
  induction items as [|item items IH]; intros idx data st r st' H; simpl in H.
  - unfold ret in H. injection H as _ <-. reflexivity.
  - apply bind_outcome in H as [(d1 & st1 & H1 & H)|(x & H1 & _)].
    + apply loop_body_dirs in H1. apply IH in H. set_solver.
    + apply loop_body_dirs in H1. exact H1.
Qed.

Lemma for_loop_makes_directories w em base file items : forall idx data st data' st',
  for_loop w em base file idx items data st = (Ok data', st') ->
  forall oid path, In (oid, path) items -> str_in oid em = false ->
  exists gid, index_neg2 (split_on "/" path) = Ok gid
              /\ os_path_dirname (obj_path_of base gid oid) ∈ dirs st'.
Proof.
  induction items as [|item items IH]; intros idx data st data' st' H oid path Hin Hnew;
    [destruct Hin|].
  simpl in H. apply bind_Ok in H as (d1 & st1 & H1 & H).
  destruct Hin as [->|Hin].
  - destruct (index_neg2 (split_on "/" path)) as [gid|x] eqn:Hg.
    + exists gid. split; [reflexivity|].
      pose proof (loop_body_makes_directory _ _ _ _ _ _ _ _ _ _ _ _ Hnew Hg H1) as Hd.
      apply for_loop_dirs in H. set_solver.
    + apply loop_body_inv in H1. inversion H1; subst; congruence.
  - eapply IH; eassumption.
Qed.

(** The calls of the conversion in the events of one iteration. *)
Lemma conversions_of_app t1 t2 :
  conversions_of (t1 ++ t2) = conversions_of t1 ++ conversions_of t2.
Proof.
  induction t1 as [|e t1 IH]; simpl; [reflexivity|].
  destruct e; simpl; rewrite IH; reflexivity.
Qed.

Lemma conversion_calls_nothing w p obj x t :
  conversion w p obj = (x, t) -> conversions_of t = [].
Proof.
  unfold conversion.
  destruct (trimesh_load w p) as [a|]; [|intros [= <- <-]; reflexivity].
  destruct (merged_mesh_of a) as [m|]; [|intros [= <- <-]; reflexivity].
  destruct (extents m) as [e|]; [|intros [= <- <-]; reflexivity].
  destruct (export_ok w obj _); intros [= <- <-]; reflexivity.
Qed.

(** An iteration either does nothing (the id is known, or the path has
    no group and the iteration raises), or it starts with [os.makedirs]
    of the output directory followed by the one call of the conversion. *)
Lemma iteration_calls w em base file idx oid path data st r st' :
  iteration w em base file idx oid path data st r st' ->
  exists t,
    trace st' = trace st ++ t
    /\ ((t = [] /\ dirs st' = dirs st
         /\ (str_in oid em = true \/ exists x, r = Raise x))
        \/ exists gid rest,
             str_in oid em = false
             /\ index_neg2 (split_on "/" path) = Ok gid
             /\ t = EvMakedirs (os_path_dirname (obj_path_of base gid oid))
                    :: EvConvert oid path (obj_path_of base gid oid) :: rest
             /\ conversions_of rest = []
             /\ os_path_dirname (obj_path_of base gid oid) ∈ dirs st').
Proof.
  intros H.
  inversion H; subst;
    try (exists []; rewrite app_nil_r; split; [reflexivity|]; left;
         split; [reflexivity|]; split; [reflexivity|]; eauto; fail);
    match goal with
    | Hc : conversion _ _ _ = (_, ?t) |- _ =>
        pose proof (conversion_calls_nothing _ _ _ _ _ Hc) as Hnone
    end;
    eexists; (split;
      [cbn [trace add_events entered saved]; rewrite <- ?app_assoc; cbn [app]; reflexivity|]);
    right; exists gid; eexists;
    (split; [assumption|]); (split; [assumption|]); (split; [reflexivity|]);
    (split; [rewrite ?conversions_of_app, Hnone; reflexivity | cbn; set_solver]).
Qed.

Lemma convert_in_iteration d oid path obj rest pre o p ob post :
  conversions_of rest = [] ->
  EvMakedirs d :: EvConvert oid path obj :: rest = pre ++ EvConvert o p ob :: post ->
  pre = [EvMakedirs d] /\ o = oid /\ p = path /\ ob = obj.
Proof.
  intros Hnone H.
  destruct pre as [|e1 [|e2 pre]]; simpl in H.
  - discriminate.
  - injection H as <- <- <- <- _. auto.
  - injection H as _ _ ->. rewrite conversions_of_app in Hnone.
    apply app_eq_nil in Hnone as [_ Hnone]. discriminate.
Qed.

(** C10, the specification as written does not hold: not every
    requested id that is missing from the manifest gets its output
    directory.  Request [a] below is not in the manifest and its
    directory would be [/tmp/base/objs/g/a].  In the first run the
    request before it has a path without a second-to-last segment: the
    run raises [IndexError] there, having made no directory and called
    no conversion.  In the second run the export of the request before
    it fails: the run raises at that request.  Either way request [a] is
    never looked at and its directory is not made. *)
Lemma later_request_left_without_directory :
  let out := update_json demo_world [("b", "b.glb"); ("a", "g/a.glb")]
               "/tmp/base" "/tmp/base/m.json" empty_state in
  let out' := update_json export_fails_world [("b", "g/b.glb"); ("a", "g/a.glb")]
                "/tmp/base" "/tmp/base/m.json" empty_state in
  (str_in "a" [] = false
   /\ index_neg2 (split_on "/" "g/a.glb") = Ok "g"
   /\ os_path_dirname (obj_path_of "/tmp/base" "g" "a") = "/tmp/base/objs/g/a")
  /\ (fst out = Raise IndexError
      /\ trace (snd out) = []
      /\ bool_decide ("/tmp/base/objs/g/a" ∈ dirs (snd out)) = false)
  /\ (fst out' = Raise ExportError
      /\ conversions_of (trace (snd out'))
         = [(("b", "g/b.glb"), "/tmp/base/objs/g/b/model_scaled.obj")]
      /\ bool_decide ("/tmp/base/objs/g/a" ∈ dirs (snd out')) = false).
Proof. repeat split; vm_compute; reflexivity. Qed.

(** C10, as amended.  Every call of the conversion in a run of the
    request loop, however the loop ends, is for a requested id that is
    not in the manifest, with the output path
    [join(base, "objs", github_id, objaverse_id, "model_scaled.obj")],
    and comes after [os.makedirs] of the directory of that path in the
    same run; the directory is among the directories made when the loop
    ends, whatever the conversion returned or raised (so also when it
    failed and nothing was recorded).  For ordinary path components the
    directory is [base/objs/github_id/objaverse_id].  When the loop runs
    to its end, this covers every requested id that is not in the
    manifest: each one has a path with a second-to-last segment, has had
    its conversion called, and has its directory. *)
Theorem directory_made_before_each_conversion (w : World) (existing_map : list json)
    (base file_path : string) (items : list (string * string)) :
  forall (idx : nat) (data : json) (st : state) (r : result json) (st' : state),
  for_loop w existing_map base file_path idx items data st = (r, st') ->
  exists t,
    trace st' = trace st ++ t
    /\ (forall pre objaverse_id path obj_path post,
          t = pre ++ EvConvert objaverse_id path obj_path :: post ->
          In (EvMakedirs (os_path_dirname obj_path)) pre
          /\ os_path_dirname obj_path ∈ dirs st'
          /\ In (objaverse_id, path) items
          /\ str_in objaverse_id existing_map = false
          /\ exists github_id,
               index_neg2 (split_on "/" path) = Ok github_id
               /\ obj_path = obj_path_of base github_id objaverse_id
               /\ (base <> "" -> ends_with_sep base = false -> github_id <> "" ->
                   objaverse_id <> "" -> starts_with_sep objaverse_id = false ->
                   ends_with_sep objaverse_id = false ->
                   os_path_dirname obj_path
                   = base +:+ "/objs/" +:+ github_id +:+ "/" +:+ objaverse_id))
    /\ (forall data', r = Ok data' ->
        forall objaverse_id path,
          In (objaverse_id, path) items -> str_in objaverse_id existing_map = false ->
          exists github_id,
            index_neg2 (split_on "/" path) = Ok github_id
            /\ In (EvConvert objaverse_id path (obj_path_of base github_id objaverse_id)) t
            /\ os_path_dirname (obj_path_of base github_id objaverse_id) ∈ dirs st').
Proof.
  induction items as [|[oid0 path0] items IH]; intros idx data st r st' H; simpl in H.
  - unfold ret in H. injection H as <- <-. exists []. rewrite app_nil_r.
    split; [reflexivity|]. split.
    + intros pre oid path obj post Ht. destruct pre; discriminate.
    + intros data' _ oid path [].
  - assert (Hfirst : forall r1 st1 t1 pre oid path obj post,
      iteration w existing_map base file_path idx oid0 path0 data st r1 st1 ->
      ((t1 = [] /\ dirs st1 = dirs st
        /\ (str_in oid0 existing_map = true \/ exists x, r1 = Raise x))
       \/ exists gid rest,
            str_in oid0 existing_map = false
            /\ index_neg2 (split_on "/" path0) = Ok gid
            /\ t1 = EvMakedirs (os_path_dirname (obj_path_of base gid oid0))
                    :: EvConvert oid0 path0 (obj_path_of base gid oid0) :: rest
            /\ conversions_of rest = []
            /\ os_path_dirname (obj_path_of base gid oid0) ∈ dirs st1) ->
      t1 = pre ++ EvConvert oid path obj :: post ->
      In (EvMakedirs (os_path_dirname obj)) pre
      /\ os_path_dirname obj ∈ dirs st1
      /\ In (oid, path) ((oid0, path0) :: items)
      /\ str_in oid existing_map = false
      /\ exists gid,
           index_neg2 (split_on "/" path) = Ok gid
           /\ obj = obj_path_of base gid oid
           /\ (base <> "" -> ends_with_sep base = false -> gid <> "" ->
               oid <> "" -> starts_with_sep oid = false -> ends_with_sep oid = false ->
               os_path_dirname obj = base +:+ "/objs/" +:+ gid +:+ "/" +:+ oid)).
    { intros r1 st1 t1 pre oid path obj post _ [(-> & _)|(gid & rest & Hnew & Hg & -> & Hn & Hd)] Ht.
      - destruct pre; discriminate.
      - destruct (convert_in_iteration _ _ _ _ _ _ _ _ _ _ Hn Ht) as (-> & -> & -> & ->).
        split; [left; reflexivity|]. split; [exact Hd|].
        split; [left; reflexivity|]. split; [exact Hnew|].
        exists gid. split; [exact Hg|]. split; [reflexivity|].
        intros Hb Hbe Hgn Ho Hos Hoe.
        destruct (github_id_plain _ _ Hg) as [Hgs Hge].
        apply obj_path_dir_plain; assumption. }
    apply bind_outcome in H as [(d1 & st1 & H1 & H)|(x & H1 & ->)].
    + apply loop_body_inv in H1.
      destruct (iteration_calls _ _ _ _ _ _ _ _ _ _ _ H1) as (t1 & Ht1 & Hcase).
      pose proof (for_loop_dirs _ _ _ _ _ _ _ _ _ _ H) as Hsub.
      destruct (IH _ _ _ _ _ H) as (t2 & Ht2 & HA & HB).
      exists (t1 ++ t2). split; [rewrite Ht2, Ht1, app_assoc; reflexivity|]. split.
      * intros pre oid path obj post Ht.
        apply app_eq_app in Ht as [l [[Hl1 Hl2]|[Hl1 Hl2]]].
        -- destruct l as [|e l].
           ++ simpl in Hl2. symmetry in Hl2.
              destruct (HA [] _ _ _ _ Hl2) as ([] & _).
           ++ simpl in Hl2. injection Hl2 as <- ->.
              destruct (Hfirst _ _ _ _ _ _ _ _ H1 Hcase Hl1) as (Hin & Hd & Hrest).
              split; [exact Hin|]. split; [exact (Hsub _ Hd) | exact Hrest].
        -- destruct (HA _ _ _ _ _ Hl2) as (Hin & Hd & Hitem & Hrest).
           split; [rewrite Hl1; apply in_or_app; right; exact Hin|].
           split; [exact Hd|]. split; [right; exact Hitem | exact Hrest].
      * intros data' Hr oid path [[= <- <-]|Hin] Hnew.
        -- destruct Hcase as [(_ & _ & [Hk|(x & [=])])|(gid & rest & _ & Hg & -> & _ & Hd)];
             [congruence|].
           exists gid. split; [exact Hg|]. split; [|exact (Hsub _ Hd)].
           right. left. reflexivity.
        -- destruct (HB data' Hr oid path Hin Hnew) as (gid & Hg & Hc & Hd).
           exists gid. split; [exact Hg|]. split; [|exact Hd].
           apply in_or_app. right. exact Hc.
    + apply loop_body_inv in H1.
      destruct (iteration_calls _ _ _ _ _ _ _ _ _ _ _ H1) as (t1 & Ht1 & Hcase).
      exists t1. split; [exact Ht1|]. split.
      * intros pre oid path obj post Ht.
        exact (Hfirst _ _ _ _ _ _ _ _ H1 Hcase Ht).
      * intros data' [=].
Qed.

(** ** The final save *)


(** ** An export that fails *)

(** When an iteration raises, the loop stops there: the remaining
    requests are not looked at. *)
Lemma for_loop_raises w em base file idx item rest data st x st' :
  loop_body w em base file idx item data st = (Raise x, st') ->
  for_loop w em base file idx (item :: rest) data st = (Raise x, st').
Proof. intros H. simpl. apply (bind_run_Raise _ _ _ _ _ H). Qed.

(** A failing export makes the iteration raise, with nothing recorded
    and nothing printed. *)
Lemma export_failure_raises w em base file idx oid path gid a m e data st :
  str_in oid em = false ->
  index_neg2 (split_on "/" path) = Ok gid ->
  trimesh_load w path = Some a ->
  merged_mesh_of a = Some m ->
  extents m = Some e ->
  export_ok w (obj_path_of base gid oid) (normalized w (max3 e) m) = false ->
  loop_body w em base file idx (oid, path) data st
  = (Raise ExportError, entered st oid path (obj_path_of base gid oid)).
Proof.
  intros Hnew Hg Hl Hm He Hx.
  assert (Hc : conversion w path (obj_path_of base gid oid) = (Raise ExportError, [])).
  { unfold conversion. rewrite Hl, Hm, He, Hx. reflexivity. }
  destruct (loop_body w em base file idx (oid, path) data st) as [r st'] eqn:H.
  apply loop_body_inv in H.
  inversion H; subst; try congruence;
    match goal with
    | Hg' : index_neg2 _ = Ok ?g |- _ => assert (g = gid) by congruence; subst g
    end; try congruence.
  rewrite Hc in *.
  match goal with Hc' : (_, _) = (_, _) |- _ => injection Hc' as <- <- end.
  rewrite add_events_nil. reflexivity.
Qed.

(** C1, the code at a failing input.  The mesh of [g/b.glb] loads, its
    export fails.  The error is not caught: the run raises it, nothing is
    printed, the next request [c] is never looked at and no manifest is
    written, not even by the final save. *)
Theorem export_failure_aborts_run :
  update_json export_fails_world [("b", "g/b.glb"); ("c", "g/c.glb")]
    "/tmp/base" "/tmp/base/m.json" empty_state
  = (Raise ExportError,
     {| files := ∅;
        dirs := {[ "/tmp/base/objs/g/b" ]};
        trace := [EvMakedirs "/tmp/base/objs/g/b";
                  EvConvert "b" "g/b.glb" "/tmp/base/objs/g/b/model_scaled.obj"] |}).
Proof. vm_compute. reflexivity. Qed.

(** By contrast a failing load is caught and the run goes on. *)
Example load_failure_is_skipped :
  let out := update_json demo_world [("c", "g/c.glb"); ("b", "g/b.glb")]
               "/tmp/base" "/tmp/base/m.json" empty_state in
  fst out = Ok tt
  /\ files (snd out) !! "/tmp/base/m.json"
     = Some (Dumped (manifest_json
                       [ {| obj_id := 0; objaverse_id := "b"; github_id := "g";
                            norm_scale := 4 |} ])).
Proof. split; vm_compute; reflexivity. Qed.

(** ** Bounding boxes under scaling and translation *)

Lemma list_min_le_max x xs : (list_min x xs <= list_max x xs)%Q.
Proof.
  revert x. induction xs as [|y ys IH]; intros x; simpl; [apply Qle_refl|].
  apply Qle_trans with x; [apply Q.le_min_l | apply Q.le_max_l].
Qed.

Lemma ptp_nonneg x xs : (0 <= ptp x xs)%Q.
Proof. unfold ptp. pose proof (list_min_le_max x xs). lra. Qed.

Lemma max3_nonneg a b c : (0 <= a)%Q -> (0 <= max3 (a, b, c))%Q.
Proof.
  intros Ha. unfold max3. simpl.
  apply Qle_trans with (Qmax a b); [|apply Q.le_max_l].
  apply Qle_trans with a; [exact Ha | apply Q.le_max_l].
Qed.

(** The largest extent of a mesh is never negative. *)
Lemma extents_max_nonneg m e : extents m = Some e -> (0 <= max3 e)%Q.
Proof.
  unfold extents. destruct (vertices m) as [|v vs]; [discriminate|].
  intros [= <-]. apply max3_nonneg, ptp_nonneg.
Qed.

Section Affine.
Variable s : Q.
Hypothesis s_nonneg : (0 <= s)%Q.
Variable t : Q.

Local Instance scale_proper : Proper (Qeq ==> Qeq) (fun x : Q => (x * s)%Q).
Proof. intros x y H. rewrite H. reflexivity. Qed.

Local Instance scale_mono : Proper (Qle ==> Qle) (fun x : Q => (x * s)%Q).
Proof. intros x y H. apply Qmult_le_compat_r; assumption. Qed.

Local Instance shift_proper : Proper (Qeq ==> Qeq) (fun x : Q => (x + t)%Q).
Proof. intros x y H. rewrite H. reflexivity. Qed.

Local Instance shift_mono : Proper (Qle ==> Qle) (fun x : Q => (x + t)%Q).
Proof. intros x y H. lra. Qed.

Lemma list_max_scale x xs :
  (list_max (x * s) (map (fun y => y * s) xs) == list_max x xs * s)%Q.
Proof.
  revert x. induction xs as [|y ys IH]; intros x; simpl; [reflexivity|].
  rewrite IH. apply (Q.max_mono (fun x => x * s)%Q); typeclasses eauto.
Qed.

Lemma list_min_scale x xs :
  (list_min (x * s) (map (fun y => y * s) xs) == list_min x xs * s)%Q.
Proof.
  revert x. induction xs as [|y ys IH]; intros x; simpl; [reflexivity|].
  rewrite IH. apply (Q.min_mono (fun x => x * s)%Q); typeclasses eauto.
Qed.

Lemma list_max_shift x xs :
  (list_max (x + t) (map (fun y => y + t) xs) == list_max x xs + t)%Q.
Proof.
  revert x. induction xs as [|y ys IH]; intros x; simpl; [reflexivity|].
  rewrite IH. apply (Q.max_mono (fun x => x + t)%Q); typeclasses eauto.
Qed.

Lemma list_min_shift x xs :
  (list_min (x + t) (map (fun y => y + t) xs) == list_min x xs + t)%Q.
Proof.
  revert x. induction xs as [|y ys IH]; intros x; simpl; [reflexivity|].
  rewrite IH. apply (Q.min_mono (fun x => x + t)%Q); typeclasses eauto.
Qed.

Lemma ptp_scale x xs : (ptp (x * s) (map (fun y => y * s) xs) == ptp x xs * s)%Q.
Proof. unfold ptp. rewrite list_max_scale, list_min_scale. ring. Qed.

Lemma ptp_shift x xs : (ptp (x + t) (map (fun y => y + t) xs) == ptp x xs)%Q.
Proof. unfold ptp. rewrite list_max_shift, list_min_shift. ring. Qed.

Lemma max3_scale a b c : (max3 (a * s, b * s, c * s) == max3 (a, b, c) * s)%Q.
Proof.
  unfold max3. simpl.
  rewrite (Q.max_mono (fun x => x * s)%Q scale_proper scale_mono a b).
  apply (Q.max_mono (fun x => x * s)%Q); typeclasses eauto.
Qed.
End Affine.

Lemma max3_compat a b c a' b' c' :
  (a == a')%Q -> (b == b')%Q -> (c == c')%Q -> (max3 (a, b, c) == max3 (a', b', c'))%Q.
Proof.
  intros Ha Hb Hc. unfold max3, vx, vy, vz. cbn [fst snd].
  rewrite Ha, Hb, Hc. reflexivity.
Qed.

(** A translation keeps the extents, a scaling by [s >= 0] scales them. *)
Lemma extents_translation t m e :
  extents m = Some e ->
  exists e', extents (apply_translation t m) = Some e'
             /\ (vx e' == vx e)%Q /\ (vy e' == vy e)%Q /\ (vz e' == vz e)%Q.
Proof.
  unfold extents, apply_translation. simpl.
  destruct (vertices m) as [|v vs]; [discriminate|]. intros [= <-]. simpl.
  eexists. split; [reflexivity|]. unfold vx, vy, vz. simpl.
  rewrite !map_map. simpl.
  rewrite <- !(map_map (fun v : vec3 => fst (fst v)) (fun x => (x + fst (fst t))%Q)).
  rewrite <- !(map_map (fun v : vec3 => snd (fst v)) (fun x => (x + snd (fst t))%Q)).
  rewrite <- !(map_map (fun v : vec3 => snd v) (fun x => (x + snd t)%Q)).
  repeat split; apply ptp_shift.
Qed.

Lemma extents_scale s m e :
  (0 <= s)%Q -> extents m = Some e ->
  exists e', extents (apply_scale s m) = Some e'
             /\ (vx e' == vx e * s)%Q /\ (vy e' == vy e * s)%Q /\ (vz e' == vz e * s)%Q.
Proof.
  intros Hs. unfold extents, apply_scale. simpl.
  destruct (vertices m) as [|v vs]; [discriminate|]. intros [= <-]. simpl.
  eexists. split; [reflexivity|]. unfold vx, vy, vz. simpl.
  rewrite !map_map. simpl.
  rewrite <- !(map_map (fun v : vec3 => fst (fst v)) (fun x => (x * s)%Q)).
  rewrite <- !(map_map (fun v : vec3 => snd (fst v)) (fun x => (x * s)%Q)).
  rewrite <- !(map_map (fun v : vec3 => snd v) (fun x => (x * s)%Q)).
  repeat split; apply ptp_scale; assumption.
Qed.

(** After the rescaling the largest extent is 1. *)
Lemma normalized_unit_extent w m e :
  extents m = Some e -> (0 < max3 e)%Q ->
  exists e', extents (normalized w (max3 e) m) = Some e' /\ (max3 e' == 1)%Q.
Proof.
  intros He Hpos. unfold normalized.
  destruct (Qlt_le_dec 0 (max3 e)) as [_|Hle]; [|lra].
  assert (Hs : (0 <= 1 / max3 e)%Q).
  { apply Qle_shift_div_l; [exact Hpos | lra]. }
  destruct (extents_scale _ m e Hs He) as (e1 & He1 & Hx1 & Hy1 & Hz1).
  destruct (extents_translation
              (neg_vec (centroid w (apply_scale (1 / max3 e) m))) _ e1 He1)
    as (e2 & He2 & Hx2 & Hy2 & Hz2).
  exists e2. split; [exact He2|].
  destruct e2 as [[a2 b2] c2], e1 as [[a1 b1] c1], e as [[a b] c].
  unfold vx, vy, vz in *. simpl in *.
  rewrite (max3_compat a2 b2 c2 (a * (1 / max3 (a, b, c)))
             (b * (1 / max3 (a, b, c))) (c * (1 / max3 (a, b, c))))
    by (etransitivity; eassumption).
  rewrite max3_scale by exact Hs.
  field. lra.
Qed.

(** ** The normaliser *)

Lemma convert_glb_to_obj_exports w glb obj a m e st :
  trimesh_load w glb = Some a ->
  merged_mesh_of a = Some m ->
  extents m = Some e ->
  export_ok w obj (normalized w (max3 e) m) = true ->
  convert_glb_to_obj w glb obj st
  = (Ok (Some (max3 e)), add_events st [EvExport obj (normalized w (max3 e) m)]).
Proof.
  intros Hl Hm He Hx. rewrite convert_glb_to_obj_run.
  unfold conversion. rewrite Hl, Hm, He, Hx. reflexivity.
Qed.

(** C8, the specification as written does not hold: the mesh of
    [g/a.glb] has all its vertices at (1, 1, 1), so its extents are zero.
    The scale reported
    is 0 and no rescaling happens, but the exported vertex is at the
    origin: the mesh is still translated by minus its centroid. *)
Lemma degenerate_mesh_is_moved :
  let out := convert_glb_to_obj demo_world "g/a.glb" "out/model_scaled.obj" empty_state in
  fst out = Ok (Some 0%Q)
  /\ trace (snd out)
     = [EvExport "out/model_scaled.obj"
          {| vertices := [(0 # 3, 0 # 3, 0 # 3)%Q]; faces := [(0, 0, 0)%nat] |}]
  /\ vertices (point_mesh (1, 1, 1)%Q) = [(1, 1, 1)%Q]
  /\ ~ (0 # 3 == 1)%Q.
Proof.
  repeat split; try (vm_compute; reflexivity).
  intros H. vm_compute in H. discriminate.
Qed.

(** C8, as amended.  For every loadable mesh whose bounding box has
    zero largest extent, the conversion returns that extent, which is 0,
    skips the rescaling, and exports the mesh with every vertex
    translated by minus the centroid of the mesh (and otherwise as in the
    input: not rescaled, faces unchanged). *)
Theorem degenerate_mesh_not_rescaled (w : World) (glb_path obj_path : string)
    (a : Loaded) (m : Trimesh) (e : vec3) (st : state) :
  trimesh_load w glb_path = Some a ->
  merged_mesh_of a = Some m ->
  extents m = Some e ->
  (max3 e == 0)%Q ->
  export_ok w obj_path (apply_translation (neg_vec (centroid w m)) m) = true ->
  exists norm_scale exported,
    convert_glb_to_obj w glb_path obj_path st
    = (Ok (Some norm_scale), add_events st [EvExport obj_path exported])
    /\ (norm_scale == 0)%Q
    /\ vertices exported = map (translate_vertex (neg_vec (centroid w m))) (vertices m)
    /\ faces exported = faces m.
Proof.
  intros Hl Hm He H0 Hx.
  assert (Hn : normalized w (max3 e) m = apply_translation (neg_vec (centroid w m)) m).
  { unfold normalized. destruct (Qlt_le_dec 0 (max3 e)) as [Hlt|_]; [|reflexivity].
    rewrite H0 in Hlt. exfalso. exact (Qlt_irrefl _ Hlt). }
  exists (max3 e), (apply_translation (neg_vec (centroid w m)) m).
  split; [|split; [exact H0 | split; reflexivity]].
  rewrite <- Hn. apply (convert_glb_to_obj_exports w glb_path obj_path a m e st Hl Hm He).
  rewrite Hn. exact Hx.
Qed.


(** ** Recorded scales *)

Lemma conversion_scale_nonneg w p obj ns t :
  conversion w p obj = (Ok (Some ns), t) -> (0 <= ns)%Q.
Proof.
  unfold conversion.
  destruct (trimesh_load w p) as [a|]; [|discriminate].
  destruct (merged_mesh_of a) as [m|]; [|discriminate].
  destruct (extents m) as [e|] eqn:He; [|discriminate].
  destruct (export_ok w obj _); [|discriminate].
  intros [= <- _]. exact (extents_max_nonneg m e He).
Qed.

Lemma py_append_manifest records new_id oid gid ns :
  py_append (manifest_json records) (new_record new_id oid gid ns)
  = Ok (manifest_json
          (records ++ [ {| obj_id := new_id; objaverse_id := oid; github_id := gid;
                           norm_scale := ns |} ])).
Proof. unfold py_append, manifest_json. rewrite map_app. reflexivity. Qed.

(** One iteration on a typed manifest: at most one record is added, with
    a scale that is not negative, and the manifest file is left alone or
    holds the manifest with that record. *)
Lemma iteration_typed w em base file idx oid path records st r st' :
  iteration w em base file idx oid path (manifest_json records) st r st' ->
  exists added,
    Forall nonneg_scale added
    /\ (files st' !! file = files st !! file
        \/ files st' !! file = Some (Dumped (manifest_json (records ++ added))))
    /\ (forall data', r = Ok data' -> data' = manifest_json (records ++ added)).
Proof.
  intros H.
  inversion H; subst;
    try (exists []; rewrite app_nil_r;
         split; [constructor | split; [left; reflexivity | congruence]]).
  - (* recorded *)
    match goal with
    | Ha : py_append _ _ = Ok _, Hc : conversion _ _ _ = (Ok (Some ?ns), _) |- _ =>
        rewrite py_append_manifest in Ha; injection Ha as <-;
        apply conversion_scale_nonneg in Hc;
        exists [ {| obj_id := new_id; objaverse_id := oid; github_id := gid;
                    norm_scale := ns |} ]
    end.
    split; [repeat constructor; assumption|].
    split; [left; reflexivity | congruence].
  - (* recorded and saved *)
    match goal with
    | Ha : py_append _ _ = Ok _, Hc : conversion _ _ _ = (Ok (Some ?ns), _) |- _ =>
        rewrite py_append_manifest in Ha; injection Ha as <-;
        apply conversion_scale_nonneg in Hc;
        exists [ {| obj_id := new_id; objaverse_id := oid; github_id := gid;
                    norm_scale := ns |} ]
    end.
    split; [repeat constructor; assumption|].
    split; [right; cbn; apply lookup_insert_eq | congruence].
Qed.

Lemma for_loop_typed w em base file items : forall idx records st r st',
  for_loop w em base file idx items (manifest_json records) st = (r, st') ->
  (files st' !! file = files st !! file
   \/ exists added, Forall nonneg_scale added
        /\ files st' !! file = Some (Dumped (manifest_json (records ++ added))))
  /\ (forall data', r = Ok data' ->
      exists added, Forall nonneg_scale added
        /\ data' = manifest_json (records ++ added)).
Proof.
  induction items as [|[oid path] items IH]; intros idx records st r st' H; simpl in H.
  - unfold ret in H. injection H as <- <-. split; [left; reflexivity|].
    intros data' [= <-]. exists []. rewrite app_nil_r. split; [constructor | reflexivity].
  - apply bind_outcome in H as [(d1 & st1 & H1 & H)|(x & H1 & ->)].
    + apply loop_body_inv, iteration_typed in H1 as (added1 & Hn1 & Hf1 & Hd1).
      rewrite (Hd1 d1 eq_refl) in H.
      apply IH in H as (Hf & Hd). split.
      * destruct Hf as [Hf|(added & Hn & Hf)].
        -- rewrite Hf. destruct Hf1 as [Hf1|Hf1]; [left; exact Hf1|].
           right. exists added1. split; assumption.
        -- right. exists (added1 ++ added). rewrite app_assoc.
           split; [apply Forall_app; split; assumption | exact Hf].
      * intros data' Hr. destruct (Hd data' Hr) as (added & Hn & ->).
        exists (added1 ++ added). rewrite app_assoc.
        split; [apply Forall_app; split; assumption | reflexivity].
    + apply loop_body_inv, iteration_typed in H1 as (added1 & Hn1 & Hf1 & _).
      split; [|discriminate].
      destruct Hf1 as [Hf1|Hf1]; [left; exact Hf1|].
      right. exists added1. split; assumption.
Qed.

(** A zero-extent mesh is not rejected: when it loads and exports, the
    iteration appends its record, with the scale returned by the
    conversion, which is 0. *)
Lemma degenerate_item_is_recorded w em base file idx oid path gid a m e records st :
  str_in oid em = false ->
  index_neg2 (split_on "/" path) = Ok gid ->
  trimesh_load w path = Some a ->
  merged_mesh_of a = Some m ->
  extents m = Some e ->
  (max3 e == 0)%Q ->
  export_ok w (obj_path_of base gid oid) (normalized w (max3 e) m) = true ->
  os_path_dirname file <> "" ->
  exists new_id,
    fst (loop_body w em base file idx (oid, path) (manifest_json records) st)
    = Ok (manifest_json
            (records ++ [ {| obj_id := new_id; objaverse_id := oid; github_id := gid;
                             norm_scale := max3 e |} ])).
Proof.
  intros Hnew Hg Hl Hm He H0 Hx Hdir.
  assert (Hc : conversion w path (obj_path_of base gid oid)
               = (Ok (Some (max3 e)),
                  [EvExport (obj_path_of base gid oid) (normalized w (max3 e) m)])).
  { unfold conversion. rewrite Hl, Hm, He, Hx. reflexivity. }
  destruct (find_next_available_id_least records) as (n & Hn & _).
  exists n.
  destruct (loop_body w em base file idx (oid, path) (manifest_json records) st)
    as [r st'] eqn:H.
  apply loop_body_inv in H. cbn [fst].
  inversion H; subst; try congruence;
    match goal with
    | Hg' : index_neg2 _ = Ok ?g |- _ => assert (g = gid) by congruence; subst g
    end;
    match goal with
    | Hc' : conversion _ _ _ = _ |- _ => rewrite Hc in Hc'; try discriminate Hc';
                                         injection Hc' as <- <-
    end;
    match goal with
    | Hf : find_next_available_id _ = _ |- _ => rewrite Hn in Hf; try discriminate Hf;
                                                injection Hf as <-
    end;
    match goal with
    | Ha : py_append _ _ = _ |- _ =>
        rewrite py_append_manifest in Ha; try discriminate Ha; injection Ha as <-
    end; reflexivity.
Qed.

(** C2, the specification as written does not hold: the zero-extent
    mesh of [g/a.glb] is converted and recorded, and its record has
    scale 0, which is not strictly positive. *)
Lemma zero_scale_is_recorded :
  let out := update_json demo_world [("a", "g/a.glb")] "/tmp/base" "/tmp/base/m.json"
               empty_state in
  extents (point_mesh (1, 1, 1)%Q) = Some (0, 0, 0)%Q
  /\ fst out = Ok tt
  /\ files (snd out) !! "/tmp/base/m.json"
     = Some (Dumped (manifest_json
                       [ {| obj_id := 0; objaverse_id := "a"; github_id := "g";
                            norm_scale := 0 |} ]))
  /\ ~ (0 < 0)%Q.
Proof.
  repeat split; try (vm_compute; reflexivity).
  apply Qlt_irrefl.
Qed.

(** C2, as amended.  Start from a manifest whose records all have a
    scale that is not negative (in particular from no manifest).  Then
    after the run, however it ends, the manifest file is as it was or
    holds the old records followed by records added by the run, every one
    of them with a scale greater than or equal to 0; and when the run
    ends normally the file holds such a manifest.  A scale of 0 does
    occur: a zero-extent mesh is recorded with it. *)
Theorem recorded_scales_are_nonnegative (w : World)
    (objaverse_dict : list (string * string)) (base file_path : string)
    (st : state) (records : list ManifestRecord) (r : result unit) (st' : state) :
  load_existing_json file_path st = (Ok (manifest_json records), st) ->
  Forall nonneg_scale records ->
  update_json w objaverse_dict base file_path st = (r, st') ->
  (files st' !! file_path = files st !! file_path
   \/ exists added, Forall nonneg_scale (records ++ added)
        /\ files st' !! file_path = Some (Dumped (manifest_json (records ++ added))))
  /\ (r = Ok tt ->
      exists added, Forall nonneg_scale (records ++ added)
        /\ files st' !! file_path = Some (Dumped (manifest_json (records ++ added)))).
Proof.
  intros Hload Hrec H. unfold update_json in H.
  rewrite (bind_run_Ok _ _ _ _ _ Hload) in H.
  apply bind_outcome in H as [(em & st0 & Hs & H)|(x & Hs & ->)].
  2:{ unfold lift in Hs. injection Hs as _ <-. split; [left; reflexivity | discriminate]. }
  unfold lift in Hs. injection Hs as Hs <-.
  apply bind_outcome in H as [(data' & st1 & Hl & H)|(x & Hl & ->)].
  - apply for_loop_typed in Hl as (Hf & Hd).
    destruct (Hd data' eq_refl) as (added & Hn & ->).
    apply save_to_json_outcome in H as [(_ & -> & ->)|(_ & -> & ->)].
    + split; [|discriminate].
      destruct Hf as [Hf|(added' & Hn' & Hf)]; [left; exact Hf|].
      right. exists added'. split; [apply Forall_app; split; assumption | exact Hf].
    + assert (Hfinal : exists added0, Forall nonneg_scale (records ++ added0)
               /\ files (saved file_path (manifest_json (records ++ added)) st1) !! file_path
                  = Some (Dumped (manifest_json (records ++ added0)))).
      { exists added. split; [apply Forall_app; split; assumption|].
        cbn. apply lookup_insert_eq. }
      split; [right; exact Hfinal | intros _; exact Hfinal].
  - apply for_loop_typed in Hl as (Hf & _). split; [|discriminate].
    destruct Hf as [Hf|(added' & Hn' & Hf)]; [left; exact Hf|].
    right. exists added'. split; [apply Forall_app; split; assumption | exact Hf].
Qed.

(** ** Running twice *)

Lemma rmap_list_app {A B} (f : A -> result B) l1 l2 :
  rmap_list f (l1 ++ l2)
  = rbind (rmap_list f l1) (fun a => rbind (rmap_list f l2) (fun b => Ok (a ++ b))).
Proof.
  induction l1 as [|x l1 IH]; simpl.
  - destruct (rmap_list f l2); reflexivity.
  - destruct (f x) as [y|e]; simpl; [|reflexivity].
    rewrite IH. destruct (rmap_list f l1) as [a|e]; simpl; [|reflexivity].
    destruct (rmap_list f l2); reflexivity.
Qed.

Lemma str_in_app s l1 l2 : str_in s (l1 ++ l2) = (str_in s l1 || str_in s l2)%bool.
Proof. apply existsb_app. Qed.

Lemma str_in_JStr s ids : str_in s (map JStr ids) = true <-> In s ids.
Proof.
  unfold str_in. induction ids as [|i ids IH]; simpl.
  - split; [discriminate | tauto].
  - rewrite orb_true_iff, IH, String.eqb_eq. split; intros [H|H]; auto.
Qed.

(** Appending the record of [oid] adds [oid] to the known ids. *)
Lemma set_of_key_append data new_id oid gid ns data' ems :
  py_append data (new_record new_id oid gid ns) = Ok data' ->
  set_of_key "objaverse_id" data = Ok ems ->
  set_of_key "objaverse_id" data' = Ok (ems ++ [JStr oid]).
Proof.
  destruct data as [ | | | | | | |items| ]; try discriminate.
  intros [= <-]. unfold set_of_key. cbn [py_iter rbind]. intros H.
  rewrite rmap_list_app, H. reflexivity.
Qed.

(** What a completed iteration leaves behind: the item was known, or
    it is now recorded, or its conversion returned [None]. *)
Lemma iteration_accounts w em base file idx oid path data st d1 st1 :
  iteration w em base file idx oid path data st (Ok d1) st1 ->
  exists new_ids,
    (forall ems, set_of_key "objaverse_id" data = Ok ems ->
                 set_of_key "objaverse_id" d1 = Ok (ems ++ map JStr new_ids))
    /\ (str_in oid em = true \/ In oid new_ids
        \/ exists gid, index_neg2 (split_on "/" path) = Ok gid
             /\ fst (conversion w path (obj_path_of base gid oid)) = Ok None).
Proof.
  intros H. inversion H; subst.
  - exists []. split; [intros ems ->; rewrite app_nil_r; reflexivity | auto].
  - exists []. split; [intros ems ->; rewrite app_nil_r; reflexivity |].
    right. right. exists gid. split; [assumption|].
    match goal with Hc : conversion _ _ _ = _ |- _ => rewrite Hc end. reflexivity.
  - exists [oid]. split; [|right; left; left; reflexivity].
    intros ems Hs. eapply set_of_key_append; eassumption.
  - exists [oid]. split; [|right; left; left; reflexivity].
    intros ems Hs. eapply set_of_key_append; eassumption.
Qed.

Lemma for_loop_accounts w em base file items : forall idx data st data' st',
  for_loop w em base file idx items data st = (Ok data', st') ->
  exists new_ids,
    (forall ems, set_of_key "objaverse_id" data = Ok ems ->
                 set_of_key "objaverse_id" data' = Ok (ems ++ map JStr new_ids))
    /\ (forall oid path, In (oid, path) items ->
        str_in oid em = true \/ In oid new_ids
        \/ exists gid, index_neg2 (split_on "/" path) = Ok gid
             /\ fst (conversion w path (obj_path_of base gid oid)) = Ok None).
Proof.
  induction items as [|[oid path] items IH]; intros idx data st data' st' H; simpl in H.
  - unfold ret in H. injection H as <- <-. exists []. split.
    + intros ems ->. rewrite app_nil_r. reflexivity.
    + intros ? ? [].
  - apply bind_Ok in H as (d1 & st1 & H1 & H).
    apply loop_body_inv, iteration_accounts in H1 as (ids1 & Hs1 & Hi1).
    apply IH in H as (ids2 & Hs2 & Hi2).
    exists (ids1 ++ ids2). split.
    + intros ems Hs. rewrite map_app, app_assoc. apply Hs2, Hs1, Hs.
    + intros o p [[= <- <-]|Hin].
      * destruct Hi1 as [Hk|[Hn|Hc]]; [auto | right; left; apply in_or_app; auto | auto].
      * destruct (Hi2 o p Hin) as [Hk|[Hn|Hc]];
          [auto | right; left; apply in_or_app; auto | auto].
Qed.

Lemma conversion_None_events w p obj t :
  conversion w p obj = (Ok None, t) -> t = [] \/ exists msg, t = [EvPrint msg].
Proof.
  unfold conversion.
  destruct (trimesh_load w p) as [a|]; [|intros [= <-]; auto].
  destruct (merged_mesh_of a) as [m|]; [|intros [= <-]; eauto].
  destruct (extents m) as [e|]; [|discriminate].
  destruct (export_ok w obj _); discriminate.
Qed.

(** An iteration over an item that is known, or whose conversion returns
    [None], changes neither the in-memory manifest nor any file, exports
    nothing and saves nothing. *)
Lemma loop_body_nothing_to_do w em base file idx oid path data st :
  (str_in oid em = true
   \/ exists gid, index_neg2 (split_on "/" path) = Ok gid
        /\ fst (conversion w path (obj_path_of base gid oid)) = Ok None) ->
  exists st', loop_body w em base file idx (oid, path) data st = (Ok data, st')
    /\ files st' = files st
    /\ count_exports (trace st') = count_exports (trace st)
    /\ count_saves (trace st') = count_saves (trace st)
    /\ (forall o p ob, In (EvConvert o p ob) (trace st') ->
        In (EvConvert o p ob) (trace st) \/ str_in o em = false).
Proof.
  intros Hcase.
  destruct (loop_body w em base file idx (oid, path) data st) as [r st'] eqn:H.
  apply loop_body_inv in H.
  assert (Hnone : forall gid x t,
    str_in oid em = false ->
    index_neg2 (split_on "/" path) = Ok gid ->
    conversion w path (obj_path_of base gid oid) = (x, t) -> x = Ok None).
  { intros gid x t Hnew Hg Hc. destruct Hcase as [Hk|(gid' & Hg' & Hc')]; [congruence|].
    assert (gid' = gid) by congruence. subst gid'. rewrite Hc in Hc'. exact Hc'. }
  inversion H; subst;
    try match goal with
        | Hc : conversion _ _ _ = (_, _) |- _ =>
            let E := fresh in
            pose proof (Hnone _ _ _ ltac:(eassumption) ltac:(eassumption) Hc) as E;
            try discriminate E
        end.
  - exists st'. repeat split; auto.
  - destruct Hcase as [Hk|(gid' & Hg' & _)]; congruence.
  - eexists. split; [reflexivity|].
    match goal with
    | Hc : conversion _ _ _ = (Ok None, _) |- _ =>
        apply conversion_None_events in Hc as [->|(msg & ->)]
    end; cbn [files trace add_events entered];
      rewrite ?count_exports_app, ?count_saves_app; cbn [count_exports count_saves];
      (repeat split; [lia | lia |]);
      intros o p ob Hin; rewrite !in_app_iff in Hin; cbn [In] in Hin;
      (destruct Hin as [[Hin|[Hin|[Hin|[]]]]|Hin];
         [left; exact Hin | discriminate
         | injection Hin as <- <- <-; right; assumption
         | repeat (destruct Hin as [Hin|Hin]; try discriminate Hin); destruct Hin]).
Qed.

Lemma for_loop_nothing_to_do w em base file items data :
  (forall oid path, In (oid, path) items ->
     str_in oid em = true
     \/ exists gid, index_neg2 (split_on "/" path) = Ok gid
          /\ fst (conversion w path (obj_path_of base gid oid)) = Ok None) ->
  forall idx st,
  exists st', for_loop w em base file idx items data st = (Ok data, st')
    /\ files st' = files st
    /\ count_exports (trace st') = count_exports (trace st)
    /\ count_saves (trace st') = count_saves (trace st)
    /\ (forall o p ob, In (EvConvert o p ob) (trace st') ->
        In (EvConvert o p ob) (trace st) \/ str_in o em = false).
Proof.
  induction items as [|[oid path] items IH]; intros Hall idx st; simpl.
  - exists st. unfold ret. repeat split; auto.
  - destruct (loop_body_nothing_to_do w em base file idx oid path data st
                (Hall oid path (or_introl eq_refl)))
      as (st1 & H1 & Hf1 & He1 & Hs1 & Hc1).
    destruct (IH (fun o p Hin => Hall o p (or_intror Hin)) (S idx) st1)
      as (st2 & H2 & Hf2 & He2 & Hs2 & Hc2).
    exists st2. rewrite (bind_run_Ok _ _ _ _ _ H1). split; [exact H2|].
    repeat split; try congruence.
    intros o p ob Hin. destruct (Hc2 o p ob Hin) as [Hin1|Hn]; [|auto].
    apply Hc1. exact Hin1.
Qed.

(** C5.  Run the batch to its normal end, then run it again on the same
    requests, with the same assets on disk.  The second run ends normally
    too; it calls the conversion for no id that the manifest of the first
    run records, exports no mesh at all, and leaves every file, the
    manifest among them, exactly as the first run left it. *)
Theorem rerun_is_idempotent (w : World) (objaverse_dict : list (string * string))
    (base file_path : string) (st st1 : state) :
  update_json w objaverse_dict base file_path st = (Ok tt, st1) ->
  exists data1 known1 st2,
    files st1 !! file_path = Some (Dumped data1)
    /\ set_of_key "objaverse_id" data1 = Ok known1
    /\ update_json w objaverse_dict base file_path (restart st1) = (Ok tt, st2)
    /\ files st2 = files st1
    /\ count_exports (trace st2) = 0%nat
    /\ (forall oid, str_in oid known1 = true ->
        forall p ob, ~ In (EvConvert oid p ob) (trace st2)).
Proof.
  intros H. unfold update_json in H.
  apply bind_Ok in H as (data0 & st0 & Hload & H).
  apply bind_Ok in H as (em0 & st0' & Hs0 & H).
  unfold lift in Hs0. injection Hs0 as Hs0 <-.
  apply bind_Ok in H as (data1 & st1' & Hloop & Hsave).
  apply save_to_json_outcome in Hsave as [(_ & [=] & _)|(Hdir & _ & ->)].
  destruct (for_loop_accounts _ _ _ _ _ _ _ _ _ _ Hloop) as (new_ids & Hknown & Hitems).
  specialize (Hknown em0 Hs0).
  set (em1 := em0 ++ map JStr new_ids) in *.
  assert (Hall : forall oid path, In (oid, path) objaverse_dict ->
    str_in oid em1 = true
    \/ exists gid, index_neg2 (split_on "/" path) = Ok gid
         /\ fst (conversion w path (obj_path_of base gid oid)) = Ok None).
  { intros oid path Hin. unfold em1. rewrite str_in_app, orb_true_iff, str_in_JStr.
    destruct (Hitems oid path Hin) as [Hk|[Hn|Hc]]; auto. }
  destruct (for_loop_nothing_to_do w em1 base file_path objaverse_dict data1 Hall 0%nat
              (restart (saved file_path data1 st1')))
    as (st2' & Hloop2 & Hf2 & He2 & _ & Hc2).
  exists data1, em1, (saved file_path data1 st2').
  split; [cbn; apply lookup_insert_eq|].
  split; [exact Hknown|].
  split.
  { unfold update_json.
    assert (Hload2 : load_existing_json file_path (restart (saved file_path data1 st1'))
                     = (Ok data1, restart (saved file_path data1 st1'))).
    { unfold load_existing_json. cbn [files restart saved].
      rewrite lookup_insert_eq. reflexivity. }
    rewrite (bind_run_Ok _ _ _ _ _ Hload2).
    unfold lift at 1. unfold bind at 1. rewrite Hknown. fold em1.
    rewrite (bind_run_Ok _ _ _ _ _ Hloop2).
    apply save_to_json_saved. exact Hdir. }
  split.
  { cbn [files saved]. rewrite Hf2. cbn [files restart saved].
    apply insert_insert_eq. }
  split.
  { cbn [trace saved]. rewrite count_exports_app, He2. reflexivity. }
  intros oid Hk p ob Hin. cbn [trace saved] in Hin.
  apply in_app_iff in Hin as [Hin|Hin].
  - destruct (Hc2 oid p ob Hin) as [[]|Hn]. congruence.
  - cbn [In] in Hin. destruct Hin as [Hin|[Hin|[]]]; discriminate.
Qed.

(** ** Concrete runs *)


(** [g/c.glb] does not load: in a loop over three new requests its
    directory is made all the same, and the manifest has records for the
    other two only. *)
Lemma directory_of_failed_request :
  let out := for_loop demo_world [] "/tmp/base" "/tmp/base/m.json" 0 demo_requests
               (JArr []) empty_state in
  "/tmp/base/objs/g/c" ∈ dirs (snd out)
  /\ fst out
     = Ok (manifest_json
             [ {| obj_id := 0; objaverse_id := "a"; github_id := "g"; norm_scale := 0 |};
               {| obj_id := 1; objaverse_id := "b"; github_id := "g"; norm_scale := 4 |} ]).
Proof.
  intros out.
  assert (Hout : fst out
     = Ok (manifest_json
             [ {| obj_id := 0; objaverse_id := "a"; github_id := "g"; norm_scale := 0 |};
               {| obj_id := 1; objaverse_id := "b"; github_id := "g"; norm_scale := 4 |} ]))
    by (vm_compute; reflexivity).
  split; [|exact Hout].
  destruct (directory_made_before_each_conversion demo_world [] "/tmp/base"
              "/tmp/base/m.json" demo_requests 0 (JArr []) empty_state (fst out) (snd out))
    as (t & _ & _ & Hall).
  - apply surjective_pairing.
  - destruct (Hall _ Hout "c" "g/c.glb") as (gid & Hg & _ & Hd).
    + right. left. reflexivity.
    + reflexivity.
    + vm_compute in Hg. injection Hg as <-. exact Hd.
Defined.


(** The zero-extent mesh of [g/a.glb]: scale 0, vertices moved by minus
    the centroid. *)
Lemma degenerate_mesh_demo :
  exists norm_scale exported,
    convert_glb_to_obj demo_world "g/a.glb" "out/model_scaled.obj" empty_state
    = (Ok (Some norm_scale),
       add_events empty_state [EvExport "out/model_scaled.obj" exported])
    /\ (norm_scale == 0)%Q
    /\ vertices exported
       = map (translate_vertex
                (neg_vec (triangles_center_mean (point_mesh (1, 1, 1)%Q))))
             [(1, 1, 1)%Q]
    /\ faces exported = [(0, 0, 0)%nat].
Proof.
  apply (degenerate_mesh_not_rescaled demo_world "g/a.glb" "out/model_scaled.obj"
           (SingleMesh (point_mesh (1, 1, 1)%Q)) (point_mesh (1, 1, 1)%Q) (0, 0, 0)%Q
           empty_state); reflexivity.
Defined.


(** A first run over a zero-extent mesh, a wedge and a file that does
    not load: the manifest holds two records, with scales 0 and 4. *)
Lemma scales_of_first_run :
  let requests := [("a", "g/a.glb"); ("c", "g/c.glb"); ("b", "g/b.glb")] in
  let out := update_json demo_world requests "/tmp/base" "/tmp/base/m.json" empty_state in
  exists added, Forall nonneg_scale ([] ++ added)
    /\ files (snd out) !! "/tmp/base/m.json" = Some (Dumped (manifest_json ([] ++ added))).
Proof.
  intros requests out.
  destruct (recorded_scales_are_nonnegative demo_world requests "/tmp/base"
              "/tmp/base/m.json" empty_state [] (fst out) (snd out))
    as (_ & Hok).
  - reflexivity.
  - constructor.
  - vm_compute. reflexivity.
  - apply Hok. vm_compute. reflexivity.
Defined.

(** The same requests run twice: the second run converts nothing. *)
Lemma second_run_demo :
  let requests := [("a", "g/a.glb"); ("c", "g/c.glb"); ("b", "g/b.glb")] in
  let st1 := snd (update_json demo_world requests "/tmp/base" "/tmp/base/m.json"
                    empty_state) in
  exists data1 known1 st2,
    files st1 !! "/tmp/base/m.json" = Some (Dumped data1)
    /\ set_of_key "objaverse_id" data1 = Ok known1
    /\ update_json demo_world requests "/tmp/base" "/tmp/base/m.json" (restart st1)
       = (Ok tt, st2)
    /\ files st2 = files st1
    /\ count_exports (trace st2) = 0%nat
    /\ (forall oid, str_in oid known1 = true ->
        forall p ob, ~ In (EvConvert oid p ob) (trace st2)).
Proof.
  intros requests st1.
  apply (rerun_is_idempotent demo_world requests "/tmp/base" "/tmp/base/m.json"
           empty_state st1).
  vm_compute. reflexivity.
Defined.

(** * Further properties *)

Lemma load_existing_json_error file st e st' :
  load_existing_json file st = (Raise e, st') -> e = JSONDecodeError.
Proof.
  unfold load_existing_json.
  destruct (files st !! file) as [[text|v]|]; [|discriminate..].
  intros [= H _]. exact (json_loads_raises _ _ H).
Qed.

(** ** [find_next_available_id] on any manifest data *)

(** X2.  Whenever every item of the data has a hashable ["obj_id"],
    [find_next_available_id] returns the smallest non-negative integer
    [n] for which [n in used_ids] is false.  Membership is Python's: an
    id stored as the float 1.0 or as [true] uses up 1, and ids stored as
    strings (or null) use up nothing, so a manifest whose ids are all of
    that kind gets 0. *)
Theorem find_next_available_id_by_python_equality (data : json) (used : list json) :
  set_of_key "obj_id" data = Ok used ->
  exists n,
    find_next_available_id data = Ok n
    /\ 0 <= n
    /\ int_in n used = false
    /\ (forall m, 0 <= m < n -> int_in m used = true)
    /\ (forall z, In (JFloat (inject_Z z)) used \/ In (JInt z) used -> n <> z)
    /\ (In (JBool true) used -> n <> 1)
    /\ ((forall v, In v used -> exists s, v = JStr s \/ v = JNull) -> n = 0).
Proof.
  intros Hs. unfold find_next_available_id. rewrite Hs. cbn [rbind].
  destruct (while_in_used_terminates used) as [n Hn]. rewrite Hn.
  exists n. split; [reflexivity|].
  apply while_in_used_Some in Hn as (H0 & Hnot & Hlt).
  assert (Hin : forall v, In v used -> py_eq_int n v = false).
  { intros v Hv. unfold int_in in Hnot.
    destruct (py_eq_int n v) eqn:E; [|reflexivity].
    assert (existsb (py_eq_int n) used = true)
      by (apply existsb_exists; exists v; auto).
    congruence. }
  repeat split; try assumption.
  - intros z [Hz|Hz] ->; apply Hin in Hz; simpl in Hz.
    + assert (Qeq_bool (inject_Z z) (inject_Z z) = true)
        by (apply Qeq_bool_iff; reflexivity).
      congruence.
    + rewrite Z.eqb_refl in Hz. discriminate.
  - intros Hb ->. apply Hin in Hb. discriminate.
  - intros Hstr. destruct (Z.eq_dec n 0) as [|Hne]; [assumption|].
    assert (H0in : int_in 0 used = true) by (apply Hlt; lia).
    unfold int_in in H0in. apply existsb_exists in H0in as (v & Hv & Hv0).
    destruct (Hstr v Hv) as (s & [->| ->]); discriminate.
Qed.

(** X3.  [find_next_available_id] raises nothing but [TypeError] and
    [KeyError]; it raises [KeyError] when the first item it cannot use is
    an object without ["obj_id"], and [TypeError] when the data is not
    iterable or that first item is no object. *)
Theorem find_next_available_id_errors (data : json) :
  (forall e, find_next_available_id data = Raise e -> e = TypeError \/ e = KeyError)
  /\ (forall good used item rest,
        data = JArr (good ++ item :: rest) ->
        set_of_key "obj_id" (JArr good) = Ok used ->
        (forall members, item = JObj members -> dict_get "obj_id" members = None) ->
        find_next_available_id data
        = Raise (match item with JObj _ => KeyError | _ => TypeError end))
  /\ (py_iter data = Raise TypeError -> find_next_available_id data = Raise TypeError).
Proof.
  split; [|split].
  - intros e H. unfold find_next_available_id in H.
    destruct (set_of_key "obj_id" data) as [used|x] eqn:Hs; cbn [rbind] in H.
    + destruct (while_in_used_terminates used) as [n Hn]. rewrite Hn in H. discriminate.
    + injection H as <-. exact (set_of_key_raises _ _ _ Hs).
  - intros good used item rest -> Hgood Hitem.
    unfold find_next_available_id, set_of_key in *. cbn [py_iter rbind] in *.
    rewrite rmap_list_app, Hgood. cbn [rbind rmap_list].
    destruct item as [ | | | | | | | |members]; try reflexivity.
    simpl. rewrite (Hitem members eq_refl). reflexivity.
  - intros Hi. unfold find_next_available_id, set_of_key. rewrite Hi. reflexivity.
Qed.

(** Ids stored as the float 0.0, as [true] and as the string "2": 0 and
    1 are taken, 2 is not. *)
Lemma ids_of_mixed_types :
  exists n,
    find_next_available_id
      (JArr [JObj [("obj_id", JFloat 0)]; JObj [("obj_id", JBool true)];
             JObj [("obj_id", JStr "2")]])
    = Ok n
    /\ 0 <= n
    /\ int_in n [JFloat 0; JBool true; JStr "2"] = false
    /\ (forall m, 0 <= m < n -> int_in m [JFloat 0; JBool true; JStr "2"] = true)
    /\ (forall z, In (JFloat (inject_Z z)) [JFloat 0; JBool true; JStr "2"]
                  \/ In (JInt z) [JFloat 0; JBool true; JStr "2"] -> n <> z)
    /\ (In (JBool true) [JFloat 0; JBool true; JStr "2"] -> n <> 1)
    /\ ((forall v, In v [JFloat 0; JBool true; JStr "2"] -> exists s, v = JStr s \/ v = JNull)
        -> n = 0).
Proof.
  apply (find_next_available_id_by_python_equality
           (JArr [JObj [("obj_id", JFloat 0)]; JObj [("obj_id", JBool true)];
                  JObj [("obj_id", JStr "2")]])
           [JFloat 0; JBool true; JStr "2"]).
  reflexivity.
Defined.

(** ** Errors of a run *)

(** X4.  A manifest that cannot be read is fatal before anything is
    done: when [json.load] raises, or the loaded value is not a sequence
    of objects with a hashable ["objaverse_id"], [update_json] raises that
    error ([JSONDecodeError], [TypeError] or [KeyError]) and leaves the
    state untouched: no directory made, nothing converted, nothing
    written, whatever the requests are. *)
Theorem unreadable_manifest_is_fatal (w : World) (objaverse_dict : list (string * string))
    (base file_path : string) (st : state) (e : exn) :
  rbind (fst (load_existing_json file_path st)) (set_of_key "objaverse_id") = Raise e ->
  update_json w objaverse_dict base file_path st = (Raise e, st)
  /\ (e = JSONDecodeError \/ e = TypeError \/ e = KeyError).
Proof.
  intros H. unfold update_json.
  destruct (load_existing_json file_path st) as [r st0] eqn:Hl.
  assert (Hst : st0 = st).
  { unfold load_existing_json in Hl.
    destruct (files st !! file_path) as [[text|v]|]; congruence. }
  subst st0. cbn [fst] in H. destruct r as [data|x]; cbn [rbind] in H.
  - rewrite (bind_run_Ok _ _ _ _ _ Hl). unfold bind at 1. unfold lift. rewrite H.
    split; [reflexivity|]. apply set_of_key_raises in H. tauto.
  - injection H as ->. rewrite (bind_run_Raise _ _ _ _ _ Hl).
    split; [reflexivity|].
    apply load_existing_json_error in Hl. auto.
Qed.

(** A manifest that holds a number where a record should be. *)
Lemma manifest_of_numbers_is_fatal :
  update_json demo_world [("b", "g/b.glb")] "/tmp/base" "/tmp/base/m.json"
    (state_with "/tmp/base/m.json" (Text "[1]"))
  = (Raise TypeError, state_with "/tmp/base/m.json" (Text "[1]"))
  /\ (TypeError = JSONDecodeError \/ TypeError = TypeError \/ TypeError = KeyError).
Proof.
  apply (unreadable_manifest_is_fatal demo_world [("b", "g/b.glb")] "/tmp/base"
           "/tmp/base/m.json" (state_with "/tmp/base/m.json" (Text "[1]")) TypeError).
  vm_compute. reflexivity.
Defined.

Lemma split_on_no_sep_single sep s :
  forallb (fun c => negb (Ascii.eqb c sep)) (list_ascii_of_string s) = true ->
  split_on sep s = [s].
Proof.
  induction s as [|c s IH]; simpl; [reflexivity|].
  intros H. apply andb_prop in H as [Hc Hs].
  destruct (Ascii.eqb c sep); [discriminate|]. rewrite (IH Hs). reflexivity.
Qed.

(** X5.  A request whose path holds no "/" has no second-to-last
    segment.  If its id is not in the manifest the loop raises
    [IndexError] at that request, before making any directory for it, and
    the requests after it are not looked at; if its id is in the manifest
    the path is never split and the loop goes on. *)
Theorem path_without_separator_aborts (w : World) (existing_map : list json)
    (base file_path : string) (idx : nat) (objaverse_id path : string)
    (rest : list (string * string)) (data : json) (st : state) :
  forallb (fun c => negb (is_sep c)) (list_ascii_of_string path) = true ->
  for_loop w existing_map base file_path idx ((objaverse_id, path) :: rest) data st
  = if str_in objaverse_id existing_map
    then for_loop w existing_map base file_path (S idx) rest data st
    else (Raise IndexError, st).
Proof.
  intros Hp. cbn [for_loop]. unfold loop_body.
  destruct (str_in objaverse_id existing_map); cbn [negb].
  - reflexivity.
  - rewrite (split_on_no_sep_single "/" path Hp). reflexivity.
Qed.

Lemma bare_file_name_aborts :
  for_loop demo_world [] "/tmp/base" "/tmp/base/m.json" 0
    [("b", "b.glb"); ("a", "g/a.glb")] (JArr []) empty_state
  = (Raise IndexError, empty_state).
Proof.
  apply (path_without_separator_aborts demo_world [] "/tmp/base" "/tmp/base/m.json" 0
           "b" "b.glb" [("a", "g/a.glb")] (JArr []) empty_state).
  reflexivity.
Defined.

(** X6.  A request that is not in the manifest and whose asset does not
    load, or loads as a scene holding a geometry that is no mesh, is
    passed over: the iteration ends normally with the in-memory manifest
    as it was, writes and exports nothing, saves nothing even at a
    multiple of 250, and the last thing it does is print the line that
    names the path. *)
Theorem failed_conversion_is_passed_over (w : World) (existing_map : list json)
    (base file_path : string) (idx : nat) (objaverse_id path github_id : string)
    (data : json) (st : state) :
  str_in objaverse_id existing_map = false ->
  index_neg2 (split_on "/" path) = Ok github_id ->
  (trimesh_load w path = None
   \/ exists geometry dump,
        trimesh_load w path = Some (Scene geometry dump)
        /\ forallb (fun g => is_trimesh (snd g)) geometry = false) ->
  exists st' t,
    loop_body w existing_map base file_path idx (objaverse_id, path) data st
    = (Ok data, st')
    /\ files st' = files st
    /\ trace st' = trace st ++ t ++ [EvPrint (path +:+ " could not be converted to .obj")]
    /\ count_exports t = 0%nat
    /\ count_saves t = 0%nat.
Proof.
  intros Hnew Hg Hfail.
  assert (Hc : exists t0,
    conversion w path (obj_path_of base github_id objaverse_id) = (Ok None, t0)).
  { unfold conversion.
    destruct Hfail as [->|(geometry & dump & -> & Hgeo)]; [eauto|].
    cbn [merged_mesh_of]. rewrite Hgeo. eauto. }
  destruct Hc as (t0 & Hc).
  destruct (loop_body w existing_map base file_path idx (objaverse_id, path) data st)
    as [r st'] eqn:H.
  apply loop_body_inv in H.
  inversion H; subst; try congruence;
    match goal with
    | Hg' : index_neg2 _ = Ok ?g |- _ => assert (g = github_id) by congruence; subst g
    end;
    match goal with
    | Hc' : conversion _ _ _ = _ |- _ => rewrite Hc in Hc'; try discriminate Hc';
                                         injection Hc' as <-
    end.
  eexists.
  exists ([EvMakedirs (os_path_dirname (obj_path_of base github_id objaverse_id));
           EvConvert objaverse_id path (obj_path_of base github_id objaverse_id)] ++ t0).
  split; [reflexivity|]. split; [reflexivity|].
  split; [cbn [trace add_events entered]; rewrite <- !app_assoc; reflexivity|].
  apply conversion_counts in Hc as [Hs He].
  rewrite count_exports_app, count_saves_app, Hs, He. split; reflexivity.
Qed.

Lemma point_cloud_is_passed_over :
  exists st' t,
    loop_body demo_world [] "/tmp/base" "/tmp/base/m.json" 0 ("p", "g/p.glb") (JArr [])
      empty_state
    = (Ok (JArr []), st')
    /\ files st' = files empty_state
    /\ trace st' = trace empty_state ++ t
                   ++ [EvPrint ("g/p.glb" +:+ " could not be converted to .obj")]
    /\ count_exports t = 0%nat
    /\ count_saves t = 0%nat.
Proof.
  apply (failed_conversion_is_passed_over demo_world [] "/tmp/base" "/tmp/base/m.json" 0
           "p" "g/p.glb" "g" (JArr []) empty_state).
  - reflexivity.
  - reflexivity.
  - right. exists [("cloud", GPointCloud [(0, 0, 0)%Q])], []. split; reflexivity.
Defined.

(** ** What a run adds to a typed manifest *)

Lemma set_of_key_objaverse_id records :
  set_of_key "objaverse_id" (manifest_json records) = Ok (known_ids records).
Proof.
  unfold set_of_key, manifest_json, known_ids. simpl.
  induction records as [|r records IH]; simpl; [reflexivity|].
  rewrite IH. reflexivity.
Qed.

Lemma str_in_known_ids oid records :
  str_in oid (known_ids records) = true <-> In oid (map objaverse_id records).
Proof.
  unfold known_ids. rewrite <- (map_map objaverse_id JStr). apply str_in_JStr.
Qed.

Lemma find_next_available_id_typed records n :
  find_next_available_id (manifest_json records) = Ok n ->
  least_unused (map obj_id records) n.
Proof.
  intros H. destruct (find_next_available_id_least records) as (n' & Hn & Hl).
  rewrite H in Hn. injection Hn as ->. exact Hl.
Qed.

(** The loop on a typed manifest follows [appended]. *)
Lemma for_loop_appended w em base file items : forall idx records st data' st',
  for_loop w em base file idx items (manifest_json records) st = (Ok data', st') ->
  exists records', data' = manifest_json records' /\ appended w em base items records records'.
Proof.
  induction items as [|[oid path] items IH]; intros idx records st data' st' H; simpl in H.
  - unfold ret in H. injection H as <- <-. exists records. split; [reflexivity | constructor].
  - apply bind_Ok in H as (d1 & st1 & H1 & H).
    apply loop_body_inv in H1.
    inversion H1; subst.
    + apply IH in H as (records' & -> & Ha). exists records'.
      split; [reflexivity | apply appended_known; assumption].
    + apply IH in H as (records' & -> & Ha). exists records'.
      split; [reflexivity|]. eapply appended_failed; try eassumption.
      match goal with Hc : conversion _ _ _ = _ |- _ => rewrite Hc end. reflexivity.
    + match goal with
      | Ha : py_append _ _ = Ok _ |- _ =>
          rewrite py_append_manifest in Ha; injection Ha as <-
      end.
      apply IH in H as (records' & -> & Ha). exists records'.
      split; [reflexivity|]. eapply appended_record; try eassumption.
      * match goal with Hc : conversion _ _ _ = _ |- _ => rewrite Hc end. reflexivity.
      * apply find_next_available_id_typed. assumption.
    + match goal with
      | Ha : py_append _ _ = Ok _ |- _ =>
          rewrite py_append_manifest in Ha; injection Ha as <-
      end.
      apply IH in H as (records' & -> & Ha). exists records'.
      split; [reflexivity|]. eapply appended_record; try eassumption.
      * match goal with Hc : conversion _ _ _ = _ |- _ => rewrite Hc end. reflexivity.
      * apply find_next_available_id_typed. assumption.
Qed.

(** A run that ends normally on a typed manifest leaves the manifest
    [appended] describes. *)
Lemma update_json_appended w dict base file st records st' :
  load_existing_json file st = (Ok (manifest_json records), st) ->
  update_json w dict base file st = (Ok tt, st') ->
  exists records',
    files st' !! file = Some (Dumped (manifest_json records'))
    /\ appended w (known_ids records) base dict records records'.
Proof.
  intros Hload H. unfold update_json in H.
  rewrite (bind_run_Ok _ _ _ _ _ Hload) in H.
  unfold bind at 1 in H. unfold lift at 1 in H.
  rewrite set_of_key_objaverse_id in H.
  apply bind_Ok in H as (data' & st1 & Hl & Hs).
  apply for_loop_appended in Hl as (records' & -> & Ha).
  apply save_to_json_outcome in Hs as [(_ & [=] & _)|(_ & _ & ->)].
  exists records'. split; [cbn; apply lookup_insert_eq | exact Ha].
Qed.

Lemma appended_extends w em base items records records' :
  appended w em base items records records' ->
  exists added, records' = records ++ added.
Proof.
  induction 1 as [records| | |oid path gid ns n items records records' _ _ _ _ _ IH].
  - exists []. rewrite app_nil_r. reflexivity.
  - assumption.
  - assumption.
  - destruct IH as (added & ->). eexists. rewrite <- app_assoc. reflexivity.
Qed.

(** Every record added comes from a request: its id is not known at the
    start, its group is the second-to-last segment of the request's
    path, its scale is the one the conversion returned; and the records
    are added in the order of the requests. *)
Lemma appended_provenance w em base items records records' :
  appended w em base items records records' ->
  exists added,
    records' = records ++ added
    /\ sublist (map objaverse_id added) (map fst (new_requests em items))
    /\ Forall (fun r =>
         exists path,
           In (objaverse_id r, path) items
           /\ str_in (objaverse_id r) em = false
           /\ index_neg2 (split_on "/" path) = Ok (github_id r)
           /\ fst (conversion w path (obj_path_of base (github_id r) (objaverse_id r)))
              = Ok (Some (norm_scale r))) added.
Proof.
  induction 1 as [records
                 |oid path items records records' Hk _ IH
                 |oid path gid items records records' Hn Hg Hc _ IH
                 |oid path gid ns n items records records' Hn Hg Hc Hl _ IH].
  - exists []. rewrite app_nil_r. split; [reflexivity|]. split; [|constructor].
    simpl. apply sublist_nil_l.
  - destruct IH as (added & -> & Hsub & Hall). exists added. split; [reflexivity|].
    split.
    + unfold new_requests. cbn [List.filter fst]. rewrite Hk. exact Hsub.
    + eapply List.Forall_impl; [|exact Hall].
      intros r (p & Hin & H'). exists p. split; [right; exact Hin | exact H'].
  - destruct IH as (added & -> & Hsub & Hall). exists added. split; [reflexivity|].
    split.
    + unfold new_requests. cbn [List.filter fst]. rewrite Hn. cbn [negb map fst].
      apply sublist_cons. exact Hsub.
    + eapply List.Forall_impl; [|exact Hall].
      intros r (p & Hin & H'). exists p. split; [right; exact Hin | exact H'].
  - destruct IH as (added & -> & Hsub & Hall).
    exists ({| obj_id := n; objaverse_id := oid; github_id := gid; norm_scale := ns |}
            :: added).
    split; [rewrite <- app_assoc; reflexivity|]. split.
    + unfold new_requests. cbn [List.filter fst]. rewrite Hn. cbn [negb map fst objaverse_id].
      apply sublist_skip. exact Hsub.
    + constructor.
      * exists path. cbn. repeat split; auto.
      * eapply List.Forall_impl; [|exact Hall].
        intros r (p & Hin & H'). exists p. split; [right; exact Hin | exact H'].
Qed.

(** Ids are handed out smallest first. *)
Lemma appended_least w em base items records records' :
  appended w em base items records records' ->
  forall before r after,
    records' = records ++ before ++ r :: after ->
    least_unused (map obj_id (records ++ before)) (obj_id r).
Proof.
  induction 1 as [records
                 |oid path items records records' Hk _ IH
                 |oid path gid items records records' Hn Hg Hc _ IH
                 |oid path gid ns n items records records' Hn Hg Hc Hl Ha IH];
    intros before r after E.
  - exfalso. apply (f_equal (@length ManifestRecord)) in E.
    rewrite !length_app in E. simpl in E. lia.
  - apply IH with after. exact E.
  - apply IH with after. exact E.
  - destruct (appended_extends _ _ _ _ _ _ Ha) as (added & E').
    rewrite E' in E. rewrite <- app_assoc in E. apply app_inv_head in E.
    destruct before as [|b before].
    + simpl in E. injection E as <- _. rewrite app_nil_r. exact Hl.
    + simpl in E. injection E as <- E.
      replace (records ++ {| obj_id := n; objaverse_id := oid; github_id := gid;
                             norm_scale := ns |} :: before)
        with ((records ++ [ {| obj_id := n; objaverse_id := oid; github_id := gid;
                               norm_scale := ns |} ]) ++ before)
        by (rewrite <- app_assoc; reflexivity).
      apply IH with after. rewrite E', E, <- app_assoc. reflexivity.
Qed.

Lemma appended_obj_ids_unique w em base items records records' :
  appended w em base items records records' ->
  List.NoDup (map obj_id records) -> List.NoDup (map obj_id records').
Proof.
  induction 1 as [records
                 |oid path items records records' Hk _ IH
                 |oid path gid items records records' Hn Hg Hc _ IH
                 |oid path gid ns n items records records' Hn Hg Hc Hl _ IH];
    intros Hnd; auto.
  apply IH. rewrite map_app. cbn [map obj_id].
  destruct Hl as (_ & Hnot & _).
  apply NoDup_ListNoDup, NoDup_app. repeat split.
  - apply NoDup_ListNoDup. exact Hnd.
  - intros x Hx Hx'. apply list_elem_of_In in Hx.
    apply list_elem_of_In in Hx'. destruct Hx' as [<-|[]]. contradiction.
  - apply NoDup_singleton.
Qed.

Lemma appended_objaverse_ids_unique w em base items records records' :
  appended w em base items records records' ->
  List.NoDup (map fst items) ->
  List.NoDup (map objaverse_id records) ->
  (forall oid, In oid (map fst items) -> str_in oid em = false ->
               ~ In oid (map objaverse_id records)) ->
  List.NoDup (map objaverse_id records').
Proof.
  induction 1 as [records
                 |oid path items records records' Hk _ IH
                 |oid path gid items records records' Hn Hg Hc _ IH
                 |oid path gid ns n items records records' Hn Hg Hc Hl _ IH];
    intros Hkeys Hnd Hfresh; auto.
  - cbn [map fst] in Hkeys. apply List.NoDup_cons_iff in Hkeys as [_ Hkeys].
    apply IH; auto. intros o Ho. apply Hfresh. right. exact Ho.
  - cbn [map fst] in Hkeys. apply List.NoDup_cons_iff in Hkeys as [_ Hkeys].
    apply IH; auto. intros o Ho. apply Hfresh. right. exact Ho.
  - cbn [map fst] in Hkeys. apply List.NoDup_cons_iff in Hkeys as [Hoid Hkeys].
    apply IH; auto.
    + rewrite map_app. cbn [map objaverse_id].
      apply NoDup_ListNoDup, NoDup_app. repeat split.
      * apply NoDup_ListNoDup. exact Hnd.
      * intros x Hx Hx'. apply list_elem_of_In in Hx.
        apply list_elem_of_In in Hx'. destruct Hx' as [<-|[]].
        apply (Hfresh oid); [left; reflexivity | exact Hn | exact Hx].
      * apply NoDup_singleton.
    + intros o Ho Hnew. rewrite map_app. cbn [map objaverse_id].
      intros Hin. apply in_app_or in Hin as [Hin|[<-|[]]].
      * apply (Hfresh o); [right; exact Ho | exact Hnew | exact Hin].
      * contradiction.
Qed.

Lemma least_unused_dense n m :
  least_unused (map Z.of_nat (seq 0 n)) m -> m = Z.of_nat n.
Proof.
  intros (H0 & Hnot & Hlt).
  assert (Hin : forall z, In z (map Z.of_nat (seq 0 n)) <-> 0 <= z < Z.of_nat n).
  { intros z. rewrite in_map_iff. split.
    - intros (k & <- & Hk). apply in_seq in Hk. lia.
    - intros Hz. exists (Z.to_nat z). split; [lia | apply in_seq; lia]. }
  destruct (Z.lt_trichotomy m (Z.of_nat n)) as [Hc|[Hc|Hc]]; [|exact Hc|].
  - exfalso. apply Hnot, Hin. lia.
  - exfalso. assert (Hn : In (Z.of_nat n) (map Z.of_nat (seq 0 n))) by (apply Hlt; lia).
    apply Hin in Hn. lia.
Qed.

Lemma appended_dense w em base items records records' :
  appended w em base items records records' ->
  map obj_id records = map Z.of_nat (seq 0 (length records)) ->
  map obj_id records' = map Z.of_nat (seq 0 (length records')).
Proof.
  induction 1 as [records
                 |oid path items records records' Hk _ IH
                 |oid path gid items records records' Hn Hg Hc _ IH
                 |oid path gid ns n items records records' Hn Hg Hc Hl _ IH];
    intros Hd; auto.
  apply IH.
  rewrite Hd in Hl. apply least_unused_dense in Hl. subst n.
  rewrite map_app, length_app. cbn [map obj_id length].
  rewrite Nat.add_1_r, seq_S, map_app, Hd. reflexivity.
Qed.

(** ** Invariants of the manifest across a run *)

(** X7.  A run that ends normally never removes, reorders or changes a
    record: the manifest written is the manifest read followed by the
    records added.  Every record added belongs to a request whose id was
    not in the manifest read, carries as group the second-to-last segment
    of that request's path and as scale what [convert_glb_to_obj]
    returned for it, and the records are added in the order of the
    requests. *)
Theorem run_appends_converted_requests (w : World)
    (objaverse_dict : list (string * string)) (base file_path : string)
    (st : state) (records : list ManifestRecord) (st' : state) :
  load_existing_json file_path st = (Ok (manifest_json records), st) ->
  update_json w objaverse_dict base file_path st = (Ok tt, st') ->
  exists added,
    files st' !! file_path = Some (Dumped (manifest_json (records ++ added)))
    /\ sublist (map objaverse_id added)
               (map fst (new_requests (known_ids records) objaverse_dict))
    /\ Forall (fun r =>
         exists path,
           In (objaverse_id r, path) objaverse_dict
           /\ ~ In (objaverse_id r) (map objaverse_id records)
           /\ index_neg2 (split_on "/" path) = Ok (github_id r)
           /\ forall s,
                fst (convert_glb_to_obj w path
                       (obj_path_of base (github_id r) (objaverse_id r)) s)
                = Ok (Some (norm_scale r))) added.
Proof.
  intros Hload H.
  destruct (update_json_appended _ _ _ _ _ _ _ Hload H) as (records' & Hf & Ha).
  destruct (appended_provenance _ _ _ _ _ _ Ha) as (added & -> & Hsub & Hall).
  exists added. split; [exact Hf|]. split; [exact Hsub|].
  eapply List.Forall_impl; [|exact Hall].
  intros r (path & Hin & Hnew & Hg & Hc). exists path.
  split; [exact Hin|]. split.
  - rewrite <- str_in_known_ids. rewrite Hnew. discriminate.
  - split; [exact Hg|]. intros s. rewrite convert_glb_to_obj_run. exact Hc.
Qed.

Lemma demo_run_appends :
  let st := state_with "/tmp/base/m.json" (Dumped (manifest_json three_records)) in
  let st' := snd (update_json demo_world demo_requests "/tmp/base" "/tmp/base/m.json" st) in
  exists added,
    files st' !! "/tmp/base/m.json"
    = Some (Dumped (manifest_json (three_records ++ added)))
    /\ sublist (map objaverse_id added)
               (map fst (new_requests (known_ids three_records) demo_requests))
    /\ Forall (fun r =>
         exists path,
           In (objaverse_id r, path) demo_requests
           /\ ~ In (objaverse_id r) (map objaverse_id three_records)
           /\ index_neg2 (split_on "/" path) = Ok (github_id r)
           /\ forall s,
                fst (convert_glb_to_obj demo_world path
                       (obj_path_of "/tmp/base" (github_id r) (objaverse_id r)) s)
                = Ok (Some (norm_scale r))) added.
Proof.
  intros st st'.
  apply (run_appends_converted_requests demo_world demo_requests "/tmp/base"
           "/tmp/base/m.json" st three_records st').
  - reflexivity.
  - vm_compute. reflexivity.
Defined.

(** X8.  Ids stay unique and are handed out smallest first: after a run
    that ends normally, each record added has as [obj_id] the smallest
    non-negative integer used by no record before it in the manifest (a
    freed id is taken before a new one), and if the ids of the manifest
    read were pairwise different, so are the ids of the manifest
    written. *)
Theorem run_keeps_obj_ids_unique (w : World)
    (objaverse_dict : list (string * string)) (base file_path : string)
    (st : state) (records : list ManifestRecord) (st' : state) :
  load_existing_json file_path st = (Ok (manifest_json records), st) ->
  update_json w objaverse_dict base file_path st = (Ok tt, st') ->
  exists added,
    files st' !! file_path = Some (Dumped (manifest_json (records ++ added)))
    /\ (forall before r after,
          added = before ++ r :: after ->
          least_unused (map obj_id (records ++ before)) (obj_id r))
    /\ (List.NoDup (map obj_id records) -> List.NoDup (map obj_id (records ++ added))).
Proof.
  intros Hload H.
  destruct (update_json_appended _ _ _ _ _ _ _ Hload H) as (records' & Hf & Ha).
  destruct (appended_extends _ _ _ _ _ _ Ha) as (added & ->).
  exists added. split; [exact Hf|]. split.
  - intros before r after ->. eapply appended_least; [exact Ha | reflexivity].
  - apply (appended_obj_ids_unique _ _ _ _ _ _ Ha).
Qed.

(** With ids 0, 1 and 3 in use, the two records added get 2 and 4. *)
Lemma demo_run_reuses_freed_id :
  let st := state_with "/tmp/base/m.json" (Dumped (manifest_json three_records)) in
  let st' := snd (update_json demo_world demo_requests "/tmp/base" "/tmp/base/m.json" st) in
  exists added,
    files st' !! "/tmp/base/m.json"
    = Some (Dumped (manifest_json (three_records ++ added)))
    /\ (forall before r after,
          added = before ++ r :: after ->
          least_unused (map obj_id (three_records ++ before)) (obj_id r))
    /\ (List.NoDup (map obj_id three_records) ->
        List.NoDup (map obj_id (three_records ++ added))).
Proof.
  intros st st'.
  apply (run_keeps_obj_ids_unique demo_world demo_requests "/tmp/base"
           "/tmp/base/m.json" st three_records st').
  - reflexivity.
  - vm_compute. reflexivity.
Defined.

Example demo_run_ids :
  files (snd (update_json demo_world demo_requests "/tmp/base" "/tmp/base/m.json"
                (state_with "/tmp/base/m.json" (Dumped (manifest_json three_records)))))
    !! "/tmp/base/m.json"
  = Some (Dumped (manifest_json
       (three_records ++
        [ {| obj_id := 2; objaverse_id := "a"; github_id := "g"; norm_scale := 0 |};
          {| obj_id := 4; objaverse_id := "b"; github_id := "g"; norm_scale := 4 |} ]))).
Proof. vm_compute. reflexivity. Qed.

(** X9.  The requests are the items of a dict, so their ids are pairwise
    different.  Then a run that ends normally keeps [objaverse_id]
    unique: if no id occurs twice in the manifest read, none occurs twice
    in the manifest written. *)
Theorem run_keeps_objaverse_ids_unique (w : World)
    (objaverse_dict : list (string * string)) (base file_path : string)
    (st : state) (records : list ManifestRecord) (st' : state) :
  List.NoDup (map fst objaverse_dict) ->
  List.NoDup (map objaverse_id records) ->
  load_existing_json file_path st = (Ok (manifest_json records), st) ->
  update_json w objaverse_dict base file_path st = (Ok tt, st') ->
  exists records',
    files st' !! file_path = Some (Dumped (manifest_json records'))
    /\ List.NoDup (map objaverse_id records').
Proof.
  intros Hkeys Hnd Hload H.
  destruct (update_json_appended _ _ _ _ _ _ _ Hload H) as (records' & Hf & Ha).
  exists records'. split; [exact Hf|].
  apply (appended_objaverse_ids_unique _ _ _ _ _ _ Ha Hkeys Hnd).
  intros oid _ Hnew Hin. apply str_in_known_ids in Hin. congruence.
Qed.

Lemma demo_run_objaverse_ids_unique :
  let st := state_with "/tmp/base/m.json" (Dumped (manifest_json three_records)) in
  let st' := snd (update_json demo_world demo_requests "/tmp/base" "/tmp/base/m.json" st) in
  exists records',
    files st' !! "/tmp/base/m.json" = Some (Dumped (manifest_json records'))
    /\ List.NoDup (map objaverse_id records').
Proof.
  intros st st'.
  apply (run_keeps_objaverse_ids_unique demo_world demo_requests "/tmp/base"
           "/tmp/base/m.json" st three_records st').
  - apply NoDup_ListNoDup. refine (bool_decide_unpack _ _). vm_compute. exact I.
  - apply NoDup_ListNoDup. refine (bool_decide_unpack _ _). vm_compute. exact I.
  - reflexivity.
  - vm_compute. reflexivity.
Defined.

(** X10.  Starting from a manifest whose ids are 0, 1, ..., n-1 in this
    order (in particular from no manifest), a run that ends normally
    leaves a manifest whose ids are again 0, 1, 2, ... in order: the k-th
    record has id k-1. *)
Theorem run_keeps_ids_dense (w : World)
    (objaverse_dict : list (string * string)) (base file_path : string)
    (st : state) (records : list ManifestRecord) (st' : state) :
  map obj_id records = map Z.of_nat (seq 0 (length records)) ->
  load_existing_json file_path st = (Ok (manifest_json records), st) ->
  update_json w objaverse_dict base file_path st = (Ok tt, st') ->
  exists records',
    files st' !! file_path = Some (Dumped (manifest_json records'))
    /\ map obj_id records' = map Z.of_nat (seq 0 (length records')).
Proof.
  intros Hd Hload H.
  destruct (update_json_appended _ _ _ _ _ _ _ Hload H) as (records' & Hf & Ha).
  exists records'. split; [exact Hf|].
  apply (appended_dense _ _ _ _ _ _ Ha Hd).
Qed.

Lemma first_run_ids_dense :
  let st' := snd (update_json demo_world demo_requests "/tmp/base" "/tmp/base/m.json"
                    empty_state) in
  exists records',
    files st' !! "/tmp/base/m.json" = Some (Dumped (manifest_json records'))
    /\ map obj_id records' = map Z.of_nat (seq 0 (length records')).
Proof.
  intros st'.
  apply (run_keeps_ids_dense demo_world demo_requests "/tmp/base" "/tmp/base/m.json"
           empty_state [] st').
  - reflexivity.
  - reflexivity.
  - vm_compute. reflexivity.
Defined.

(** ** What the loop does and does not do *)

(** The events of a conversion: at most a print or an export to the
    path it was given. *)
Lemma conversion_events w p obj x t :
  conversion w p obj = (x, t) ->
  Forall (fun e => (exists m, e = EvExport obj m) \/ exists msg, e = EvPrint msg) t.
Proof.
  unfold conversion.
  destruct (trimesh_load w p) as [a|]; [|intros [= <- <-]; constructor].
  destruct (merged_mesh_of a) as [m|].
  2:{ intros [= <- <-]. constructor; [right; eauto | constructor]. }
  destruct (extents m) as [e|]; [|intros [= <- <-]; constructor].
  destruct (export_ok w obj _); intros [= <- <-].
  - constructor; [left; eauto | constructor].
  - constructor.
Qed.

Lemma exports_of_app t1 t2 : exports_of (t1 ++ t2) = exports_of t1 ++ exports_of t2.
Proof.
  induction t1 as [|e t1 IH]; simpl; [reflexivity|].
  destruct e; simpl; rewrite IH; reflexivity.
Qed.

(** A conversion exports once, to the path it was given, exactly when it
    returns a scale. *)
Lemma conversion_exports w p obj x t :
  conversion w p obj = (x, t) ->
  exports_of t = match x with Ok (Some _) => [obj] | _ => [] end.
Proof.
  unfold conversion.
  destruct (trimesh_load w p) as [a|]; [|intros [= <- <-]; reflexivity].
  destruct (merged_mesh_of a) as [m|]; [|intros [= <- <-]; reflexivity].
  destruct (extents m) as [e|]; [|intros [= <- <-]; reflexivity].
  destruct (export_ok w obj _); intros [= <- <-]; reflexivity.
Qed.

Lemma new_requests_cons em item items :
  new_requests em (item :: items) = new_requests em [item] ++ new_requests em items.
Proof.
  unfold new_requests. cbn [List.filter].
  destruct (negb (str_in (fst item) em)); reflexivity.
Qed.

(** One iteration that ends normally on a typed manifest. *)
Lemma iteration_in_step w em base file idx oid path records st d1 st1 :
  iteration w em base file idx oid path (manifest_json records) st (Ok d1) st1 ->
  exists t added,
    trace st1 = trace st ++ t
    /\ d1 = manifest_json (records ++ added)
    /\ map fst (conversions_of t) = new_requests em [(oid, path)]
    /\ exports_of t = map (obj_path_of_record base) added
    /\ sublist (exports_of t) (map snd (conversions_of t)).
Proof.
  intros H. inversion H; subst.
  - exists [], []. rewrite !app_nil_r. unfold new_requests. cbn [List.filter fst].
    match goal with Hs : str_in _ _ = true |- _ => rewrite Hs end.
    repeat split; constructor.
  - match goal with
    | Hc : conversion _ _ _ = _ |- _ =>
        pose proof (conversion_calls_nothing _ _ _ _ _ Hc) as Hnone;
        pose proof (conversion_exports _ _ _ _ _ Hc) as Hexp
    end.
    eexists. exists [].
    split; [cbn [trace add_events entered]; rewrite <- app_assoc; reflexivity|].
    rewrite app_nil_r. split; [reflexivity|].
    cbn [app conversions_of exports_of].
    rewrite conversions_of_app, exports_of_app, Hnone, Hexp.
    unfold new_requests. cbn [List.filter fst].
    match goal with Hs : str_in _ _ = false |- _ => rewrite Hs end.
    repeat split. apply sublist_nil_l.
  - match goal with
    | Hc : conversion _ _ _ = _, Ha : py_append _ _ = Ok _ |- _ =>
        pose proof (conversion_calls_nothing _ _ _ _ _ Hc) as Hnone;
        pose proof (conversion_exports _ _ _ _ _ Hc) as Hexp;
        rewrite py_append_manifest in Ha; injection Ha as <-
    end.
    eexists. eexists.
    split; [cbn [trace add_events entered]; rewrite <- app_assoc; reflexivity|].
    split; [reflexivity|].
    cbn [app conversions_of exports_of]. rewrite Hnone, Hexp.
    unfold new_requests. cbn [List.filter fst].
    match goal with Hs : str_in _ _ = false |- _ => rewrite Hs end.
    repeat split. reflexivity.
  - match goal with
    | Hc : conversion _ _ _ = _, Ha : py_append _ _ = Ok _ |- _ =>
        pose proof (conversion_calls_nothing _ _ _ _ _ Hc) as Hnone;
        pose proof (conversion_exports _ _ _ _ _ Hc) as Hexp;
        rewrite py_append_manifest in Ha; injection Ha as <-
    end.
    eexists. eexists.
    split; [cbn [trace add_events entered saved]; rewrite <- !app_assoc; reflexivity|].
    split; [reflexivity|].
    cbn [app conversions_of exports_of].
    rewrite conversions_of_app, exports_of_app, Hnone, Hexp.
    unfold new_requests. cbn [List.filter fst].
    match goal with Hs : str_in _ _ = false |- _ => rewrite Hs end.
    repeat split. reflexivity.
Qed.

(** X11.  When the loop runs to its end on a manifest of records, the
    calls of the conversion are exactly the requests whose id was not in
    the manifest read at the start: one call each, in the order of the
    requests, and none for any other request.  Exports and records
    correspond one to one: the loop exported as many meshes as it added
    records, the i-th export went to the output path
    [base/objs/github_id/objaverse_id/model_scaled.obj] of the i-th
    record added, and every export went to the path its conversion was
    called with. *)
Theorem completed_loop_is_in_step (w : World) (existing_map : list json)
    (base file_path : string) (items : list (string * string)) :
  forall (idx : nat) (records : list ManifestRecord) (st : state) (data' : json)
         (st' : state),
  for_loop w existing_map base file_path idx items (manifest_json records) st
  = (Ok data', st') ->
  exists t added,
    trace st' = trace st ++ t
    /\ data' = manifest_json (records ++ added)
    /\ map fst (conversions_of t) = new_requests existing_map items
    /\ exports_of t = map (obj_path_of_record base) added
    /\ sublist (exports_of t) (map snd (conversions_of t)).
Proof.
  induction items as [|[oid path] items IH]; intros idx records st data' st' H; simpl in H.
  - unfold ret in H. injection H as <- <-. exists [], []. rewrite !app_nil_r.
    repeat split. constructor.
  - apply bind_Ok in H as (d1 & st1 & H1 & H).
    apply loop_body_inv, iteration_in_step in H1
      as (t1 & added1 & Ht1 & -> & Hc1 & He1 & Hs1).
    apply IH in H as (t2 & added2 & Ht2 & -> & Hc2 & He2 & Hs2).
    exists (t1 ++ t2), (added1 ++ added2).
    split; [rewrite Ht2, Ht1, app_assoc; reflexivity|].
    split; [rewrite app_assoc; reflexivity|].
    rewrite conversions_of_app, exports_of_app, !map_app, new_requests_cons.
    split; [rewrite Hc1, Hc2; reflexivity|].
    split; [rewrite He1, He2; reflexivity|].
    apply sublist_app; assumption.
Qed.

(** Three new requests, the second of which does not load: three calls
    of the conversion, two exports, two records. *)
Lemma demo_loop_in_step :
  let out := for_loop demo_world [] "/tmp/base" "/tmp/base/m.json" 0 demo_requests
               (manifest_json []) empty_state in
  exists t added,
    trace (snd out) = trace empty_state ++ t
    /\ manifest_json
         [ {| obj_id := 0; objaverse_id := "a"; github_id := "g"; norm_scale := 0 |};
           {| obj_id := 1; objaverse_id := "b"; github_id := "g"; norm_scale := 4 |} ]
       = manifest_json ([] ++ added)
    /\ map fst (conversions_of t) = new_requests [] demo_requests
    /\ exports_of t = map (obj_path_of_record "/tmp/base") added
    /\ sublist (exports_of t) (map snd (conversions_of t)).
Proof.
  intros out.
  apply (completed_loop_is_in_step demo_world [] "/tmp/base" "/tmp/base/m.json"
           demo_requests 0 [] empty_state
           (manifest_json
              [ {| obj_id := 0; objaverse_id := "a"; github_id := "g"; norm_scale := 0 |};
                {| obj_id := 1; objaverse_id := "b"; github_id := "g"; norm_scale := 4 |} ])
           (snd out)).
  vm_compute. reflexivity.
Defined.

Lemma checkpoint_positions_S idx n :
  checkpoint_positions idx (S n)
  = ((if (idx mod 250 =? 0)%nat then 1 else 0) + checkpoint_positions (S idx) n)%nat.
Proof.
  unfold checkpoint_positions. cbn [seq List.filter].
  destruct (idx mod 250 =? 0)%nat; reflexivity.
Qed.

Lemma checkpoint_positions_none idx n :
  (0 < idx)%nat -> (idx + n <= 250)%nat -> checkpoint_positions idx n = 0%nat.
Proof.
  revert idx. induction n as [|n IH]; intros idx Hpos Hle; [reflexivity|].
  rewrite checkpoint_positions_S, IH by lia.
  rewrite Nat.mod_small by lia.
  destruct idx; [lia | reflexivity].
Qed.

Lemma loop_body_saves w em base file idx item data st :
  (count_saves (trace (snd (loop_body w em base file idx item data st)))
   <= count_saves (trace st) + if (idx mod 250 =? 0)%nat then 1 else 0)%nat.
Proof.
  destruct item as [oid path].
  pose proof (loop_body_iteration w em base file idx oid path data st) as H.
  destruct (loop_body w em base file idx (oid, path) data st) as [r st'].
  cbn [fst snd] in *.
  inversion H; subst;
    try match goal with
        | Hcv : conversion _ _ _ = _ |- _ =>
            let A := fresh in let B := fresh in
            pose proof (conversion_counts _ _ _ _ _ Hcv) as [A B]
        end;
    try match goal with
        | Hi : (idx mod 250 =? 0)%nat = _ |- _ => rewrite Hi
        end;
    cbn [trace add_events entered saved];
    rewrite ?count_saves_app; cbn [count_saves];
    try lia; destruct (idx mod 250 =? 0)%nat; lia.
Qed.

Lemma for_loop_saves w em base file items : forall idx data st,
  (count_saves (trace (snd (for_loop w em base file idx items data st)))
   <= count_saves (trace st) + checkpoint_positions idx (length items))%nat.
Proof.
  induction items as [|item items IH]; intros idx data st.
  - simpl. lia.
  - cbn [for_loop length]. rewrite checkpoint_positions_S.
    pose proof (loop_body_saves w em base file idx item data st) as H1.
    unfold bind.
    destruct (loop_body w em base file idx item data st) as [[d1|x] st1]; cbn [snd] in *.
    + specialize (IH (S idx) d1 st1). lia.
    + lia.
Qed.

(** X12.  A run writes the manifest at most once per position that is a
    multiple of 250, plus the final save: a batch of [n] requests never
    saves more than (number of multiples of 250 below [n]) + 1 times,
    so a batch of at most 250 requests saves at most twice. *)
Theorem saves_are_bounded (w : World) (objaverse_dict : list (string * string))
    (base file_path : string) (st : state) :
  (count_saves (trace (snd (update_json w objaverse_dict base file_path st)))
   <= count_saves (trace st) + checkpoint_positions 0 (length objaverse_dict) + 1)%nat
  /\ ((length objaverse_dict <= 250)%nat ->
      (count_saves (trace (snd (update_json w objaverse_dict base file_path st)))
       <= count_saves (trace st) + 2)%nat).
Proof.
  assert (Hmain :
    (count_saves (trace (snd (update_json w objaverse_dict base file_path st)))
     <= count_saves (trace st) + checkpoint_positions 0 (length objaverse_dict) + 1)%nat).
  { unfold update_json. unfold bind at 1.
    destruct (load_existing_json file_path st) as [[data|x] st0] eqn:Hl.
    - assert (st0 = st).
      { unfold load_existing_json in Hl.
        destruct (files st !! file_path) as [[text|v]|]; congruence. }
      subst st0. unfold bind at 1. unfold lift at 1.
      destruct (set_of_key "objaverse_id" data) as [em|x]; [|cbn; lia].
      pose proof (for_loop_saves w em base file_path objaverse_dict 0 data st) as Hf.
      unfold bind.
      destruct (for_loop w em base file_path 0 objaverse_dict data st)
        as [[data'|x] st1]; cbn [snd] in *; [|lia].
      destruct (save_to_json file_path data' st1) as [r st2] eqn:Hs.
      apply save_to_json_outcome in Hs as [(_ & _ & ->)|(_ & _ & ->)]; cbn [snd]; [lia|].
      cbn [trace]. rewrite count_saves_app. simpl. lia.
    - assert (st0 = st).
      { unfold load_existing_json in Hl.
        destruct (files st !! file_path) as [[text|v]|]; congruence. }
      subst st0. cbn. lia. }
  split; [exact Hmain|].
  intros Hlen.
  assert (checkpoint_positions 0 (length objaverse_dict) <= 1)%nat.
  { destruct (length objaverse_dict) as [|n]; [cbn; lia|].
    rewrite checkpoint_positions_S, checkpoint_positions_none by lia. simpl. lia. }
  lia.
Qed.

(** ** What a loop touches *)

Lemma event_of_run_mono em base file items items' e :
  (forall x, In x items -> In x items') ->
  event_of_run em base file items e -> event_of_run em base file items' e.
Proof.
  intros Hsub. destruct e as [d|oid path obj|msg|obj m|f data]; cbn; auto.
  - intros [H|(oid & path & gid & Hin & H)]; [left; exact H|].
    right. exists oid, path, gid. split; [apply Hsub; exact Hin | exact H].
  - intros (Hin & H). split; [apply Hsub; exact Hin | exact H].
  - intros (oid & path & gid & Hin & H).
    exists oid, path, gid. split; [apply Hsub; exact Hin | exact H].
Qed.

Lemma iteration_events w em base file idx oid path data st r st' :
  iteration w em base file idx oid path data st r st' ->
  (exists t, trace st' = trace st ++ t
             /\ Forall (event_of_run em base file [(oid, path)]) t)
  /\ (forall p, p <> file -> files st' !! p = files st !! p).
Proof.
  intros H.
  assert (Hconv : forall gid x t,
    str_in oid em = false ->
    index_neg2 (split_on "/" path) = Ok gid ->
    conversion w path (obj_path_of base gid oid) = (x, t) ->
    Forall (event_of_run em base file [(oid, path)])
      ([EvMakedirs (os_path_dirname (obj_path_of base gid oid));
        EvConvert oid path (obj_path_of base gid oid)] ++ t)).
  { intros gid x t Hnew Hg Hc.
    apply Forall_app. split.
    - constructor; [|constructor; [|constructor]]; cbn.
      + right. exists oid, path, gid. repeat split; auto.
      + repeat split; auto. exists gid. auto.
    - apply conversion_events in Hc.
      eapply List.Forall_impl; [|exact Hc].
      intros e [(m & ->)|(msg & ->)]; cbn; [|exact I].
      exists oid, path, gid. repeat split; auto. }
  inversion H; subst.
  - split; [exists []; rewrite app_nil_r; split; [reflexivity | constructor] | auto].
  - split; [exists []; rewrite app_nil_r; split; [reflexivity | constructor] | auto].
  - split; [|auto]. eexists. split.
    + cbn [trace add_events entered]. rewrite <- app_assoc. reflexivity.
    + eapply Hconv; eassumption.
  - split; [|auto]. eexists. split.
    + cbn [trace add_events entered]. rewrite <- app_assoc. reflexivity.
    + rewrite app_assoc. apply Forall_app. split.
      * eapply Hconv; eassumption.
      * constructor; [exact I | constructor].
  - split; [|auto]. eexists. split.
    + cbn [trace add_events entered]. rewrite <- app_assoc. reflexivity.
    + eapply Hconv; eassumption.
  - split; [|auto]. eexists. split.
    + cbn [trace add_events entered]. rewrite <- app_assoc. reflexivity.
    + eapply Hconv; eassumption.
  - split; [|auto]. eexists. split.
    + cbn [trace add_events entered]. rewrite <- app_assoc. reflexivity.
    + eapply Hconv; eassumption.
  - split; [|auto]. eexists. split.
    + cbn [trace add_events entered]. rewrite <- app_assoc. reflexivity.
    + eapply Hconv; eassumption.
  - split.
    + eexists. split.
      * cbn [trace add_events entered saved]. rewrite <- !app_assoc. reflexivity.
      * rewrite app_assoc. apply Forall_app. split.
        -- eapply Hconv; eassumption.
        -- constructor; [left; reflexivity | constructor; [reflexivity | constructor]].
    + intros p Hp. cbn. apply lookup_insert_ne. congruence.
Qed.



(** ** Proportions of the exported mesh *)

Lemma extents_components m e :
  extents m = Some e ->
  (0 <= vx e /\ 0 <= vy e /\ 0 <= vz e)%Q
  /\ (vx e <= max3 e /\ vy e <= max3 e /\ vz e <= max3 e)%Q.
Proof.
  unfold extents. destruct (vertices m) as [|v vs]; [discriminate|].
  intros [= <-]. unfold max3, vx, vy, vz. cbn [fst snd].
  split; [repeat split; apply ptp_nonneg|].
  repeat split.
  - eapply Qle_trans; [apply Q.le_max_l | apply Q.le_max_l].
  - eapply Qle_trans; [apply Q.le_max_r | apply Q.le_max_l].
  - apply Q.le_max_r.
Qed.

Lemma normalized_extents w m e :
  extents m = Some e ->
  exists e', extents (normalized w (max3 e) m) = Some e'
             /\ (vx e' * max3 e == vx e /\ vy e' * max3 e == vy e
                 /\ vz e' * max3 e == vz e)%Q
             /\ (vx e' <= 1 /\ vy e' <= 1 /\ vz e' <= 1)%Q.
Proof.
  intros He.
  destruct (extents_components m e He) as ((Hx0 & Hy0 & Hz0) & (Hxm & Hym & Hzm)).
  unfold normalized. destruct (Qlt_le_dec 0 (max3 e)) as [Hpos|Hle].
  - assert (Hs : (0 <= 1 / max3 e)%Q).
    { apply Qle_shift_div_l; [exact Hpos | lra]. }
    destruct (extents_scale _ m e Hs He) as (e1 & He1 & Hx1 & Hy1 & Hz1).
    destruct (extents_translation
                (neg_vec (centroid w (apply_scale (1 / max3 e) m))) _ e1 He1)
      as (e2 & He2 & Hx2 & Hy2 & Hz2).
    exists e2. split; [exact He2|].
    rewrite Hx2, Hy2, Hz2, Hx1, Hy1, Hz1.
    split; [repeat split; field; lra|].
    assert (Hdiv : forall a : Q, (a <= max3 e -> a * (1 / max3 e) <= 1)%Q).
    { intros a Ha. apply Qle_trans with (max3 e * (1 / max3 e))%Q.
      - apply Qmult_le_compat_r; assumption.
      - apply Qle_lteq. right. field. lra. }
    repeat split; apply Hdiv; assumption.
  - destruct (extents_translation (neg_vec (centroid w m)) m e He)
      as (e2 & He2 & Hx2 & Hy2 & Hz2).
    exists e2. split; [exact He2|].
    rewrite Hx2, Hy2, Hz2.
    assert (H0 : (max3 e == 0)%Q) by lra.
    rewrite H0. split; repeat split; lra.
Qed.

(** X14.  Whatever mesh is converted, degenerate or not, the mesh
    exported fits in the unit box and has the proportions of the input:
    each of its bounding-box extents lies between 0 and 1, and times the
    scale returned it is the extent of the input along the same axis.
    The faces are those of the input. *)
Theorem exported_mesh_keeps_proportions (w : World) (glb_path obj_path : string)
    (a : Loaded) (m : Trimesh) (e : vec3) (st : state) :
  trimesh_load w glb_path = Some a ->
  merged_mesh_of a = Some m ->
  extents m = Some e ->
  export_ok w obj_path (normalized w (max3 e) m) = true ->
  exists norm_scale exported e',
    convert_glb_to_obj w glb_path obj_path st
    = (Ok (Some norm_scale), add_events st [EvExport obj_path exported])
    /\ extents exported = Some e'
    /\ (0 <= vx e' <= 1 /\ 0 <= vy e' <= 1 /\ 0 <= vz e' <= 1)%Q
    /\ (vx e' * norm_scale == vx e /\ vy e' * norm_scale == vy e
        /\ vz e' * norm_scale == vz e)%Q
    /\ faces exported = faces m.
Proof.
  intros Hl Hm He Hx.
  destruct (normalized_extents w m e He) as (e' & He' & Hprop & (Hx1 & Hy1 & Hz1)).
  destruct (extents_components _ e' He') as ((Hx0 & Hy0 & Hz0) & _).
  exists (max3 e), (normalized w (max3 e) m), e'.
  split; [exact (convert_glb_to_obj_exports w glb_path obj_path a m e st Hl Hm He Hx)|].
  split; [exact He'|].
  split; [repeat split; assumption|].
  split; [exact Hprop|].
  unfold normalized. destruct (Qlt_le_dec 0 (max3 e)); reflexivity.
Qed.

(** The wedge with extents (2, 4, 1) is exported with extents
    (1/2, 1, 1/4) and scale 4. *)
Lemma wedge_keeps_proportions :
  exists norm_scale exported e',
    convert_glb_to_obj demo_world "g/b.glb" "out/model_scaled.obj" empty_state
    = (Ok (Some norm_scale), add_events empty_state [EvExport "out/model_scaled.obj" exported])
    /\ extents exported = Some e'
    /\ (0 <= vx e' <= 1 /\ 0 <= vy e' <= 1 /\ 0 <= vz e' <= 1)%Q
    /\ (vx e' * norm_scale == vx (2 - 0, 4 - 0, 1 - 0)
        /\ vy e' * norm_scale == vy (2 - 0, 4 - 0, 1 - 0)
        /\ vz e' * norm_scale == vz (2 - 0, 4 - 0, 1 - 0))%Q
    /\ faces exported = faces (concatenate [wedge]).
Proof.
  apply (exported_mesh_keeps_proportions demo_world "g/b.glb" "out/model_scaled.obj"
           (Scene [("wedge", GTrimesh wedge)] [wedge]) (concatenate [wedge])
           (2 - 0, 4 - 0, 1 - 0)%Q empty_state); reflexivity.
Defined.

(** ** Where the output goes *)

Lemma join_step_relative p b :
  starts_with_sep b = false -> exists rest, join_step p b = p +:+ rest.
Proof.
  intros Hb. unfold join_step. rewrite Hb.
  destruct (String.eqb p "" || ends_with_sep p)%bool.
  - exists b. reflexivity.
  - exists ("/" +:+ b). reflexivity.
Qed.

Lemma ends_with_sep_split p :
  ends_with_sep p = true -> exists p', p = p' +:+ "/".
Proof.
  induction p as [|c p IH]; [discriminate|].
  destruct p as [|c' p'].
  - simpl. intros H. apply Ascii.eqb_eq in H as ->. exists "". reflexivity.
  - intros H. destruct IH as [q Hq]; [exact H|].
    exists (String c q). rewrite Hq. reflexivity.
Qed.

Lemma join_step_file_name p name :
  p <> "" -> starts_with_sep name = false ->
  exists d, join_step p name = d +:+ "/" +:+ name.
Proof.
  intros Hp Hn. unfold join_step. rewrite Hn.
  destruct (String.eqb_spec p "") as [|_]; [contradiction|]. cbn [orb].
  destruct (ends_with_sep p) eqn:He.
  - apply ends_with_sep_split in He as [d ->]. exists d. apply append_assoc'.
  - exists p. reflexivity.
Qed.



(** ** The paths of the script *)

(** X16.  For every value of TMPDIR the script's base directory is not
    the empty path and its manifest path has a directory part, so neither
    [os.makedirs] of the base nor a save of the manifest fails for want
    of one: every save succeeds and the file then holds the data.  For a
    TMPDIR that is not empty and does not end in "/", the base is
    TMPDIR/datasets/objaverse and the manifest is objaverse_models.json
    right inside it. *)
Theorem script_paths (tmpdir : string) :
  objaverse_base_path tmpdir <> ""
  /\ os_path_dirname (objaverse_model_json_path tmpdir) <> ""
  /\ (forall data st,
        exists st', save_to_json (objaverse_model_json_path tmpdir) data st = (Ok tt, st')
                    /\ files st' !! objaverse_model_json_path tmpdir = Some (Dumped data))
  /\ (tmpdir <> "" -> ends_with_sep tmpdir = false ->
      objaverse_base_path tmpdir = tmpdir +:+ "/datasets/objaverse"
      /\ objaverse_model_json_path tmpdir
         = tmpdir +:+ "/datasets/objaverse/objaverse_models.json"
      /\ os_path_dirname (objaverse_model_json_path tmpdir) = objaverse_base_path tmpdir).
Proof.
  assert (Hb : objaverse_base_path tmpdir <> "").
  { unfold objaverse_base_path, os_path_join. cbn [fold_left].
    apply join_step_nonempty. right. discriminate. }
  assert (Hd : os_path_dirname (objaverse_model_json_path tmpdir) <> "").
  { unfold objaverse_model_json_path, os_path_join. cbn [fold_left].
    apply dirname_join_nonempty; [exact Hb | reflexivity]. }
  split; [exact Hb|]. split; [exact Hd|]. split.
  - intros data st. exists (saved (objaverse_model_json_path tmpdir) data st).
    split; [apply save_to_json_saved; exact Hd|].
    cbn. apply lookup_insert_eq.
  - intros Ht He.
    assert (H1 : join_step tmpdir "datasets" = tmpdir +:+ "/datasets").
    { apply join_step_plain; [exact Ht | exact He | reflexivity]. }
    assert (H2 : objaverse_base_path tmpdir = tmpdir +:+ "/datasets/objaverse").
    { unfold objaverse_base_path, os_path_join. cbn [fold_left]. rewrite H1.
      rewrite join_step_plain.
      - rewrite !append_assoc'. reflexivity.
      - destruct tmpdir; [contradiction | discriminate].
      - rewrite ends_with_sep_app by discriminate. reflexivity.
      - reflexivity. }
    assert (Hbe : ends_with_sep (objaverse_base_path tmpdir) = false).
    { rewrite H2. rewrite ends_with_sep_app by discriminate. reflexivity. }
    assert (H3 : objaverse_model_json_path tmpdir
                 = objaverse_base_path tmpdir +:+ "/" +:+ "objaverse_models.json").
    { unfold objaverse_model_json_path, os_path_join. cbn [fold_left].
      apply join_step_plain; [exact Hb | exact Hbe | reflexivity]. }
    split; [exact H2|]. split.
    + rewrite H3, H2. rewrite !append_assoc'. reflexivity.
    + rewrite H3. apply dirname_plain; [exact Hb | exact Hbe | reflexivity].
Qed.

(** ** A manifest path without directory part *)

Lemma conversion_writes_nothing w p base gid oid file x t :
  os_path_dirname file = "" ->
  conversion w p (obj_path_of base gid oid) = (x, t) ->
  Forall (writes_nothing_at file) t.
Proof.
  intros Hd Hc. apply conversion_events in Hc.
  eapply List.Forall_impl; [|exact Hc].
  intros e [(m & ->)|(msg & ->)]; unfold writes_nothing_at; [|exact I].
  intros Heq. apply (obj_path_dir_nonempty base gid oid). rewrite Heq. exact Hd.
Qed.

Lemma iteration_writes_nothing w em base file idx oid path data st r st' :
  os_path_dirname file = "" ->
  iteration w em base file idx oid path data st r st' ->
  exists t, trace st' = trace st ++ t /\ Forall (writes_nothing_at file) t.
Proof.
  intros Hd H.
  inversion H; subst; try contradiction;
    try (exists []; rewrite app_nil_r; split; [reflexivity | constructor]; fail);
    match goal with
    | Hc : conversion _ _ _ = _ |- _ =>
        pose proof (conversion_writes_nothing _ _ _ _ _ _ _ _ Hd Hc) as Hall
    end;
    eexists; (split;
      [cbn [trace add_events entered]; rewrite <- ?app_assoc; reflexivity|]);
    repeat (first [apply Forall_app; split | apply List.Forall_cons | apply List.Forall_nil]);
    try exact Hall; exact I.
Qed.

Lemma for_loop_writes_nothing w em base file items : forall idx data st r st',
  os_path_dirname file = "" ->
  for_loop w em base file idx items data st = (r, st') ->
  exists t, trace st' = trace st ++ t /\ Forall (writes_nothing_at file) t.
Proof.
  induction items as [|[oid path] items IH]; intros idx data st r st' Hd H; simpl in H.
  - unfold ret in H. injection H as <- <-.
    exists []. rewrite app_nil_r. split; [reflexivity | constructor].
  - apply bind_outcome in H as [(d1 & st1 & H1 & H)|(x & H1 & ->)].
    + apply loop_body_inv, (iteration_writes_nothing _ _ _ _ _ _ _ _ _ _ _ Hd) in H1
        as (t1 & Ht1 & Ha1).
      apply (IH _ _ _ _ _ Hd) in H as (t2 & Ht2 & Ha2).
      exists (t1 ++ t2). split; [rewrite Ht2, Ht1, app_assoc; reflexivity|].
      apply Forall_app. split; assumption.
    + apply loop_body_inv in H1.
      exact (iteration_writes_nothing _ _ _ _ _ _ _ _ _ _ _ Hd H1).
Qed.


